(** * Semantic-search pipeline of the training repository

    A shallow embedding of [src/app/api/search/route.ts] (the search
    endpoint: lazy one-time indexing of the PDF corpus behind a
    module-level singleton, query validation, similarity search and
    server-sent-event streaming) together with the pipeline components
    the route delegates to (chunker, embedder wrapper, vector index).

    The route handler is translated from the source.  The splitter, the
    embedder wrapper and the in-memory vector store are imported by the
    route from packages whose code is not part of the repository; they
    are modelled from the design document and marked as such. *)

From Stdlib Require Import List String Ascii Arith PeanoNat Lia Bool.
From Stdlib Require Import QArith Sorting.Sorted Sorting.Permutation.
Import ListNotations.

Local Open Scope string_scope.
Local Open Scope list_scope.
Local Open Scope nat_scope.

(* ===================================================================== *)
(** * Part I: definitions                                                 *)
(* ===================================================================== *)

(** ** Chunker *)

Module Chunker.

(** One loaded source artifact. *)
Record RawUnit := mkRawUnit {
  text : string;
  sourceId : string;
  extra : list (string * string)
}.

(** A bounded slice of a raw unit's text. *)
Record Chunk := mkChunk {
  chunk_text : string;
  chunk_sourceId : string;
  offsetStart : nat;
  offsetEnd : nat;
  chunk_extra : list (string * string)
}.

(** The chunk spanning [[cursor, stop)] of [unit]; the metadata is
    copied unchanged. *)
Definition emit (unit : RawUnit) (cursor stop : nat) : Chunk :=
  {| chunk_text := substring cursor (stop - cursor) (text unit);
     chunk_sourceId := sourceId unit;
     offsetStart := cursor;
     offsetEnd := stop;
     chunk_extra := extra unit |}.

(** Modelled from the spec: the splitter class the route instantiates
    ([RecursiveCharacterTextSplitter]) is imported from a package and
    its code is missing.  Section 4.2: walk the text from offset 0; at
    each step emit the chunk [[cursor, cursor + maxChunkSize)] clipped
    to the text length; advance the cursor by
    [maxChunkSize - overlapSize]; stop once the emitted chunk reaches
    the end of the text.  [None] means the walk was cut off by [fuel]. *)
Fixpoint walk (fuel : nat) (unit : RawUnit)
         (maxChunkSize overlapSize cursor : nat) : option (list Chunk) :=
  match fuel with
  | 0 => None
  | S fuel' =>
      let L := String.length (text unit) in
      let stop := Nat.min (cursor + maxChunkSize) L in
      let c := emit unit cursor stop in
      if L <=? cursor + maxChunkSize then Some [c]
      else option_map (cons c)
             (walk fuel' unit maxChunkSize overlapSize
                   (cursor + (maxChunkSize - overlapSize)))
  end.

(** Modelled from the spec: [chunk(unit, maxChunkSize, overlapSize)] of
    section 4.2, the walk started at offset 0.  One more step than the
    text has characters is always enough when
    [overlapSize < maxChunkSize]. *)
Definition chunk (unit : RawUnit) (maxChunkSize overlapSize : nat)
  : option (list Chunk) :=
  walk (S (String.length (text unit))) unit maxChunkSize overlapSize 0.

(** Ceiling of [a / b]. *)
Definition ceil_div (a b : nat) : nat := (a + (b - 1)) / b.

End Chunker.

(** ** Vector index *)

Module VectorIndex.
Import Chunker.

(** A finite float is a rational number; the rounding of the service
    and of the similarity arithmetic is not modelled. *)
Definition Embedding := list Q.

Record IndexEntry := mkEntry {
  embedding : Embedding;
  entry_chunk : Chunk
}.

Record QueryResult := mkResult {
  result_chunk : Chunk;
  score : Q
}.

Section Index.
(** The similarity measure (cosine similarity in the deployed
    store), computed outside the model. *)
Variable similarity : Embedding -> Embedding -> Q.

(** Modelled from the spec: [add] of section 4.4 (the store class is
    imported from a package): append, no dedup check. *)
Definition add (entries index : list IndexEntry) : list IndexEntry :=
  index ++ entries.

Definition scored (v : Embedding) (e : IndexEntry) : QueryResult :=
  {| result_chunk := entry_chunk e;
     score := similarity v (embedding e) |}.

(** [insert r ranked] puts [r], which was added to the index before
    every element of [ranked], in front of the first element whose
    score is not larger than its own. *)
Fixpoint insert (r : QueryResult) (ranked : list QueryResult)
  : list QueryResult :=
  match ranked with
  | [] => [r]
  | r' :: rest =>
      if Qle_bool (score r') (score r) then r :: ranked
      else r' :: insert r rest
  end.

Fixpoint rank (rs : list QueryResult) : list QueryResult :=
  match rs with
  | [] => []
  | r :: rs' => insert r (rank rs')
  end.

(** Modelled from the spec: [query] of section 4.4: score every
    stored entry against the query embedding, order by descending
    score with ties in insertion order, keep the first [k]. *)
Definition query (v : Embedding) (k : nat) (index : list IndexEntry)
  : list QueryResult :=
  firstn k (rank (map (scored v) index)).

(** The entries with the position at which each was added. *)
Definition numbered (index : list IndexEntry)
  : list (nat * IndexEntry) :=
  combine (seq 0 (List.length index)) index.

Definition scored_at (v : Embedding) (a : nat * IndexEntry) : QueryResult :=
  scored v (snd a).

(** [ahead v a b]: entry [a] outranks entry [b] for the query
    embedding [v]: a larger score, or the same score and added
    earlier. *)
Definition ahead (v : Embedding) (a b : nat * IndexEntry) : Prop :=
  (score (scored_at v b) < score (scored_at v a))%Q \/
  ((score (scored_at v b) == score (scored_at v a))%Q /\ fst a < fst b).

End Index.

End VectorIndex.

(** ** The search route *)

Module Route.
Import Chunker VectorIndex.

(** What a failed step throws. *)
Inductive Error :=
| FileSystemError (msg : string)
| EmbeddingServiceError (msg : string)
| BodyError (msg : string)
| StreamError (msg : string).

Inductive Result (A : Type) :=
| Ok (a : A)
| Err (e : Error).
Arguments Ok {A} a.
Arguments Err {A} e.

Definition bindR {A B} (r : Result A) (k : A -> Result B) : Result B :=
  match r with
  | Ok a => k a
  | Err e => Err e
  end.

(** Answer of the remote embedding service to one request. *)
Inductive Upstream :=
| UpOk (vectors : list Embedding)
| UpFail (status : string).

(** Calls that leave the process, in the order they are made. *)
Inductive Event :=
| EvReadDir (path : string)
| EvLoadPdf (path : string)
| EvEmbed (texts : list string)
| EvReadBody.

(** The embedding requests are the network calls. *)
Definition is_network_call (ev : Event) : bool :=
  match ev with
  | EvEmbed _ => true
  | _ => false
  end.

Record MemoryVectorStore := mkStore {
  memoryVectors : list IndexEntry
}.

(** Module state: the singleton of line 8, and the trace of calls. *)
Record World := mkWorld {
  vectorStore : option MemoryVectorStore;
  log : list Event
}.

(** The collaborators of one run of the handler. *)
Record Env := mkEnv {
  cwd : string;
  readdirSync : string -> Result (list string);
  pdf_load : string -> Result (list RawUnit);
  remote_embed : list string -> Upstream;
  batch_limit : positive;
  similarity : Embedding -> Embedding -> Q;
  JSON_stringify : Chunk -> string
}.

(** State and exceptions. *)
Definition M (A : Type) : Type := World -> Result A * World.

Definition ret {A} (a : A) : M A := fun w => (Ok a, w).

Definition throw {A} (e : Error) : M A := fun w => (Err e, w).

Definition bind {A B} (m : M A) (k : A -> M B) : M B :=
  fun w =>
    match m w with
    | (Ok a, w') => k a w'
    | (Err e, w') => (Err e, w')
    end.

Definition lift {A} (r : Result A) : M A := fun w => (r, w).

Definition record (evs : list Event) : M unit :=
  fun w => (Ok tt, {| vectorStore := vectorStore w; log := log w ++ evs |}).

Definition publish (store : MemoryVectorStore) : M unit :=
  fun w => (Ok tt, {| vectorStore := Some store; log := log w |}).

Notation "x <- c1 ;; c2" := (bind c1 (fun x => c2))
  (at level 61, c1 at next level, right associativity).
Notation "c1 ;; c2" := (bind c1 (fun _ => c2))
  (at level 61, right associativity).

(** [file.endsWith(suffix)] *)
Definition endsWith (suffix file : string) : bool :=
  let n := String.length file in
  let m := String.length suffix in
  (m <=? n) && String.eqb (substring (n - m) m file) suffix.

Fixpoint collect {A} (rs : list (Result A)) : Result (list A) :=
  match rs with
  | [] => Ok []
  | r :: rs' =>
      bindR r (fun a => bindR (collect rs') (fun l => Ok (a :: l)))
  end.

(** [Promise.all(loaders.map(loader => loader.load()))]: every load is
    started, the results are gathered in order, one failure fails
    the whole. *)
Definition load_all (env : Env) (loaders : list string)
  : M (list (list RawUnit)) :=
  record (map EvLoadPdf loaders) ;;
  lift (collect (map (pdf_load env) loaders)).

(** Lines 29-32. *)
Definition chunkSize : nat := 1000.
Definition chunkOverlap : nat := 200.

(** [splitter.splitDocuments]: every document chunked in turn. *)
Definition splitDocuments (docs : list RawUnit) : list Chunk :=
  flat_map (fun d => match chunk d chunkSize chunkOverlap with
                     | Some cs => cs
                     | None => []
                     end) docs.

(** Consecutive batches of at most [limit] elements. *)
Fixpoint batches_fuel {A} (fuel limit : nat) (l : list A)
  : list (list A) :=
  match fuel with
  | 0 => []
  | S fuel' =>
      match l with
      | [] => []
      | _ :: _ =>
          firstn limit l :: batches_fuel fuel' limit (skipn limit l)
      end
  end.

Definition batches {A} (limit : positive) (l : list A) : list (list A) :=
  batches_fuel (List.length l) (Pos.to_nat limit) l.

(** One request to the remote service; a failure or a mismatched
    count is an [EmbeddingServiceError]. *)
Definition embed_batch (env : Env) (batch : list string)
  : M (list Embedding) :=
  record [EvEmbed batch] ;;
  match remote_embed env batch with
  | UpOk vs =>
      if List.length vs =? List.length batch then ret vs
      else throw (EmbeddingServiceError "mismatched count")
  | UpFail status => throw (EmbeddingServiceError status)
  end.

Fixpoint embed_batches (env : Env) (bs : list (list string))
  : M (list Embedding) :=
  match bs with
  | [] => ret []
  | b :: bs' =>
      vs <- embed_batch env b ;;
      rest <- embed_batches env bs' ;;
      ret (vs ++ rest)
  end.

(** Modelled from the spec: [embed] of section 4.3 (the embeddings
    class is imported from a package): one embedding per text, in
    order, the input cut into batches within the service's limit. *)
Definition embed (env : Env) (texts : list string) : M (list Embedding) :=
  embed_batches env (batches (batch_limit env) texts).

Definition entries (vs : list Embedding) (docs : list Chunk)
  : list IndexEntry :=
  map (fun p => {| embedding := fst p; entry_chunk := snd p |})
      (combine vs docs).

(** Modelled from the spec: [store.addDocuments] (the store class is
    imported from a package): embed the texts (4.3), then [add] the
    entries (4.4). *)
Definition addDocuments (env : Env) (docs : list Chunk)
           (store : MemoryVectorStore) : M MemoryVectorStore :=
  vs <- embed env (map chunk_text docs) ;;
  ret {| memoryVectors := add (entries vs docs) (memoryVectors store) |}.

(** Lines 10-43. *)
Definition initVectorStore (env : Env) : M MemoryVectorStore :=
  fun w =>
    match vectorStore w with
    | Some store => (Ok store, w)
    | None =>
        (let cvPath := (cwd env ++ "/public/cv")%string in
         files <- (record [EvReadDir cvPath] ;;
                   lift (readdirSync env cvPath)) ;;
         let pdfFiles := filter (endsWith ".pdf") files in
         let loaders :=
           map (fun file => (cvPath ++ "/" ++ file)%string) pdfFiles in
         docs <- load_all env loaders ;;
         let allDocs := List.concat docs in
         let splits := splitDocuments allDocs in
         store <- addDocuments env splits {| memoryVectors := [] |} ;;
         publish store ;;
         ret store) w
    end.

(** The chunks an indexing pass over [env] is to index: lines 16-33
    without the bookkeeping. *)
Definition corpus (env : Env) : Result (list Chunk) :=
  let cvPath := (cwd env ++ "/public/cv")%string in
  bindR (readdirSync env cvPath) (fun files =>
    let pdfFiles := filter (endsWith ".pdf") files in
    let loaders :=
      map (fun file => (cvPath ++ "/" ++ file)%string) pdfFiles in
    bindR (collect (map (pdf_load env) loaders)) (fun docs =>
      Ok (splitDocuments (List.concat docs)))).

(** The embedding service answers every request, with one vector per
    text. *)
Definition embedder_up (env : Env) : Prop :=
  forall texts,
  exists vs,
    remote_embed env texts = UpOk vs /\
    List.length vs = List.length texts.

(** [m] leaves the singleton alone and only extends the trace. *)
Definition frames {A} (m : M A) : Prop :=
  forall w r w',
    m w = (r, w') ->
    vectorStore w' = vectorStore w /\ exists evs, log w' = log w ++ evs.

(** The body at the type line 47 casts it to: the query absent, or a
    string. *)
Record Body := mkBody { body_query : option string }.

(** A request, as far as the handler reads it: what [req.json()]
    resolves to. *)
Record Request := mkRequest { json : Result Body }.

(** [controller] of a [ReadableStream]. *)
Record Controller := mkController {
  queue : list string;
  closed : bool
}.

Definition fresh_controller : Controller :=
  {| queue := []; closed := false |}.

Definition enqueue (chunk : string) (c : Controller) : Result Controller :=
  if closed c then Err (StreamError "enqueue on a closed stream")
  else Ok {| queue := queue c ++ [chunk]; closed := false |}.

Definition close (c : Controller) : Result Controller :=
  if closed c then Err (StreamError "close on a closed stream")
  else Ok {| queue := queue c; closed := true |}.

Definition LF : string := String "010"%char EmptyString.

(** Line 59. *)
Definition sse_event (env : Env) (result : Chunk) : string :=
  ("data: " ++ JSON_stringify env result ++ LF ++ LF)%string.

Fixpoint forEach_enqueue (env : Env) (results : list Chunk)
         (c : Controller) : Result Controller :=
  match results with
  | [] => Ok c
  | result :: rest =>
      bindR (enqueue (sse_event env result) c) (forEach_enqueue env rest)
  end.

(** Lines 57-62. *)
Definition start (env : Env) (searchResults : list Chunk)
           (controller : Controller) : Result Controller :=
  bindR (forEach_enqueue env searchResults controller) close.

Inductive Response :=
| PlainResponse (body : string) (status : nat)
| StreamResponse (stream : Controller) (headers : list (string * string)).

(** The value of [k] when [similaritySearch] is called without one;
    declared by the store class, outside the repository. *)
Definition default_k : nat := 4.

(** Modelled from the spec: steps (b) and (c) of section 4.5, behind
    [store.similaritySearch]: one embedding call for the query text,
    then [query] on the index. *)
Definition similaritySearch (env : Env) (store : MemoryVectorStore)
           (queryText : string) (k : nat) : M (list Chunk) :=
  vs <- embed_batch env [queryText] ;;
  match vs with
  | v :: _ =>
      ret (map result_chunk
               (query (similarity env) v k (memoryVectors store)))
  | [] => throw (EmbeddingServiceError "mismatched count")
  end.

Definition sse_headers : list (string * string) :=
  [("Content-Type", "text/event-stream");
   ("Cache-Control", "no-cache");
   ("Connection", "keep-alive")].

(** Lines 45-72. *)
Definition POST (env : Env) (req : Request) : M Response :=
  store <- initVectorStore env ;;
  body <- (record [EvReadBody] ;; lift (json req)) ;;
  match body_query body with
  | None | Some EmptyString =>
      (* [!query]: [undefined] and the empty string are falsy *)
      ret (PlainResponse "Missing query" 400)
  | Some query =>
      searchResults <- similaritySearch env store query default_k ;;
      stream <- lift (start env searchResults fresh_controller) ;;
      ret (StreamResponse stream sse_headers)
  end.

End Route.

(** ** Requests interleaved at their suspension points *)

Module EventLoop.
Import Chunker VectorIndex Route.

(** Where a call of [initVectorStore] stands.  A call runs without
    interruption from one [await] to the next and can be overtaken by
    another request only there (lines 21, 33 and 39). *)
Inductive Task :=
| Called
| AwaitLoad (loaders : list string)
| AwaitSplit (allDocs : list RawUnit)
| AwaitAdd (store : MemoryVectorStore) (splits : list Chunk)
| Returned (store : MemoryVectorStore)
| Failed (e : Error).

Definition settle {A} (k : A -> Task) (r : Result A * World)
  : Task * World :=
  match r with
  | (Ok a, w) => (k a, w)
  | (Err e, w) => (Failed e, w)
  end.

(** The piece of [initVectorStore] a task runs when it is resumed. *)
Definition step (env : Env) (t : Task) (w : World) : Task * World :=
  match t with
  | Called =>
      match vectorStore w with
      | Some store => (Returned store, w)
      | None =>
          let cvPath := (cwd env ++ "/public/cv")%string in
          settle AwaitLoad
            ((files <- (record [EvReadDir cvPath] ;;
                        lift (readdirSync env cvPath)) ;;
              let pdfFiles := filter (endsWith ".pdf") files in
              let loaders :=
                map (fun file => (cvPath ++ "/" ++ file)%string) pdfFiles in
              record (map EvLoadPdf loaders) ;;
              ret loaders) w)
      end
  | AwaitLoad loaders =>
      settle AwaitSplit
        ((docs <- lift (collect (map (pdf_load env) loaders)) ;;
          ret (List.concat docs)) w)
  | AwaitSplit allDocs =>
      (AwaitAdd {| memoryVectors := [] |} (splitDocuments allDocs), w)
  | AwaitAdd store splits =>
      settle Returned
        ((store' <- addDocuments env splits store ;;
          publish store' ;;
          ret store') w)
  | Returned _ | Failed _ => (t, w)
  end.

Fixpoint set_nth {A} (i : nat) (a : A) (l : list A) : list A :=
  match l, i with
  | [], _ => []
  | _ :: l', 0 => a :: l'
  | x :: l', S i' => x :: set_nth i' a l'
  end.

(** [schedule] names the task resumed at each turn of the loop. *)
Fixpoint run (env : Env) (schedule : list nat) (tasks : list Task)
         (w : World) : list Task * World :=
  match schedule with
  | [] => (tasks, w)
  | i :: rest =>
      match nth_error tasks i with
      | None => run env rest tasks w
      | Some t =>
          let (t', w') := step env t w in
          run env rest (set_nth i t' tasks) w'
      end
  end.

(** An indexing pass starts with the directory listing of line 17. *)
Definition is_pass_start (ev : Event) : bool :=
  match ev with
  | EvReadDir _ => true
  | _ => false
  end.

Definition indexing_passes (w : World) : nat :=
  List.length (filter is_pass_start (log w)).

(** [store] holds the chunks of the corpus, each once and in order. *)
Definition complete (env : Env) (store : MemoryVectorStore) : Prop :=
  corpus env = Ok (map entry_chunk (memoryVectors store)).

(** What a suspended call carries is what the pass computed so far. *)
Definition task_ok (env : Env) (t : Task) : Prop :=
  let cvPath := (cwd env ++ "/public/cv")%string in
  match t with
  | Called => True
  | AwaitLoad loaders =>
      exists files,
        readdirSync env cvPath = Ok files /\
        loaders = map (fun file => (cvPath ++ "/" ++ file)%string)
                      (filter (endsWith ".pdf") files)
  | AwaitSplit allDocs =>
      corpus env = Ok (splitDocuments allDocs)
  | AwaitAdd store splits =>
      memoryVectors store = [] /\ corpus env = Ok splits
  | Returned store => complete env store
  | Failed _ => True
  end.

(** How a call that ran to its end stands. *)
Definition outcome (r : Result MemoryVectorStore) : Task :=
  match r with
  | Ok store => Returned store
  | Err e => Failed e
  end.

End EventLoop.

(** ** A small corpus to run the model on *)

Module Sample.
Import Chunker VectorIndex Route.

Definition dogs : RawUnit :=
  {| text := "Dogs are great companions, known for their loyalty and friendliness.";
     sourceId := "doc-a";
     extra := [] |}.

Definition cats : RawUnit :=
  {| text := "Cats are independent pets that often enjoy their own space.";
     sourceId := "doc-b";
     extra := [] |}.

(** A stand-in for the service: one coordinate, the length of the
    text. *)
Definition toy_embedding (t : string) : Embedding :=
  [inject_Z (Z.of_nat (String.length t))].

Fixpoint dot (a b : Embedding) : Q :=
  match a, b with
  | x :: a', y :: b' => (x * y + dot a' b')%Q
  | _, _ => 0%Q
  end.

Definition env : Env :=
  {| cwd := "/app";
     readdirSync := fun _ => Ok ["a.pdf"; "notes.txt"; "b.pdf"];
     pdf_load := fun path =>
       if String.eqb path "/app/public/cv/a.pdf" then Ok [cats]
       else Ok [dogs];
     remote_embed := fun texts => UpOk (map toy_embedding texts);
     batch_limit := 16%positive;
     similarity := dot;
     JSON_stringify := chunk_text |}.

(** The same deployment with the embedding service down. *)
Definition env_down : Env :=
  {| cwd := cwd env;
     readdirSync := readdirSync env;
     pdf_load := pdf_load env;
     remote_embed := fun _ => UpFail "503";
     batch_limit := batch_limit env;
     similarity := similarity env;
     JSON_stringify := JSON_stringify env |}.

(** A directory with no PDF in it. *)
Definition env_no_pdf : Env :=
  {| cwd := cwd env;
     readdirSync := fun _ => Ok ["notes.txt"; "cv.docx"];
     pdf_load := pdf_load env;
     remote_embed := remote_embed env;
     batch_limit := batch_limit env;
     similarity := similarity env;
     JSON_stringify := JSON_stringify env |}.

Definition letters : RawUnit :=
  {| text := "abcdefghij"; sourceId := "doc-c"; extra := [] |}.

Definition letters_chunks : list Chunk :=
  [mkChunk "abcd" "doc-c" 0 4 [];
   mkChunk "defg" "doc-c" 3 7 [];
   mkChunk "ghij" "doc-c" 6 10 []].

Definition cold : World := {| vectorStore := None; log := [] |}.

(** The calls of one indexing pass over [env]. *)
Definition pass_events : list Event :=
  [EvReadDir "/app/public/cv";
   EvLoadPdf "/app/public/cv/a.pdf";
   EvLoadPdf "/app/public/cv/b.pdf";
   EvEmbed [text cats; text dogs]].

Definition cats_chunk : Chunk := mkChunk (text cats) "doc-b" 0 59 [].
Definition dogs_chunk : Chunk := mkChunk (text dogs) "doc-a" 0 68 [].

(** The index of [env]. *)
Definition indexed : MemoryVectorStore :=
  {| memoryVectors := [mkEntry [59%Q] cats_chunk;
                       mkEntry [68%Q] dogs_chunk] |}.

Definition warm : World :=
  {| vectorStore := Some indexed; log := pass_events |}.

(** An index with more entries than a search returns. *)
Definition slot (n : nat) : Chunk := mkChunk "x" "doc-d" n (S n) [].

Definition crowded : World :=
  {| vectorStore :=
       Some {| memoryVectors :=
                 map (fun n => mkEntry [inject_Z (Z.of_nat n)] (slot n))
                     [1; 2; 3; 4; 5; 6] |};
     log := [] |}.

Definition top_four : Controller :=
  {| queue := map (sse_event env) [slot 6; slot 5; slot 4; slot 3];
     closed := true |}.

(** Three entries, the first and the last with the same score. *)
Definition tied : list IndexEntry :=
  [mkEntry [1%Q] (slot 0); mkEntry [2%Q] (slot 1); mkEntry [1%Q] (slot 2)].

(** The state a pass leaves behind when the embedding call fails. *)
Definition after_failed : World :=
  {| vectorStore := None; log := pass_events |}.

Definition request (q : option string) : Request :=
  {| json := Ok {| body_query := q |} |}.

End Sample.

(** ** The search page, client of the route *)

Module SearchPage.
Import Chunker VectorIndex Route.

(** [s.split(sep)] for a separator that is not empty: [cur] is the
    piece being read, [skip] the number of characters of a separator
    just found that are still to pass. *)
Fixpoint split_go (sep : string) (skip : nat) (cur s : string)
  : list string :=
  match s with
  | EmptyString => [cur]
  | String c s' =>
      match skip with
      | S skip' => split_go sep skip' cur s'
      | 0 =>
          if prefix sep s
          then cur :: split_go sep (String.length sep - 1) EmptyString s'
          else split_go sep 0 (cur ++ String c EmptyString)%string s'
      end
  end.

Definition split (sep s : string) : list string :=
  split_go sep 0 EmptyString s.

(** [JSON.parse], [None] when it throws. *)
Record Browser := mkBrowser {
  JSON_parse : string -> option Chunk
}.


Definition status (response : Response) : nat :=
  match response with
  | PlainResponse _ status => status
  | StreamResponse _ _ => 200
  end.


(** [response.body], as the chunks written to it. *)
Definition body (response : Response) : list string :=
  match response with
  | PlainResponse text _ => [text]
  | StreamResponse stream _ => queue stream
  end.



(** The body of the inner [for] loop: a line that starts with
    [data: ] is parsed from its seventh character on and pushed; a
    line that does not parse is logged and skipped. *)
Definition on_line (b : Browser) (searchResults : list Chunk)
           (line : string) : list Chunk :=
  if prefix "data: " line then
    match JSON_parse b (substring 6 (String.length line - 6) line) with
    | Some jsonData => searchResults ++ [jsonData]
    | None => searchResults
    end
  else searchResults.

(** One turn of the [while] loop, on the text of one read. *)
Definition on_chunk (b : Browser) (searchResults : list Chunk)
           (chunk : string) : list Chunk :=
  fold_left (on_line b) (split (LF ++ LF)%string chunk) searchResults.

(** The [while] loop, as far as [searchResults] goes: [reads] are the
    texts the reader returns until it is done. *)
Definition read_stream (b : Browser) (reads : list string) : list Chunk :=
  fold_left (on_chunk b) reads [].

(** Several writes arriving in one read. *)
Definition joined (writes : list string) : string :=
  fold_right String.append EmptyString writes.

Fixpoint no_newline (s : string) : bool :=
  match s with
  | EmptyString => true
  | String c s' => negb (Ascii.eqb c "010"%char) && no_newline s'
  end.

End SearchPage.

(** ** A browser for the sample corpus *)

Module PageSample.
Import Chunker VectorIndex Route SearchPage.

(** The inverse of [JSON_stringify Sample.env] on the two sample
    chunks. *)
Definition browser : Browser :=
  {| JSON_parse := fun s =>
       if String.eqb s (text Sample.cats) then Some Sample.cats_chunk
       else if String.eqb s (text Sample.dogs) then Some Sample.dogs_chunk
       else None |}.

(** The payload of the second event, cut after fourteen characters. *)
Definition cut_before : string := "Dogs are great".
Definition cut_after : string :=
  " companions, known for their loyalty and friendliness.".

End PageSample.

(** ** States the sample deployment goes through *)

Module Runs.
Import Chunker VectorIndex Route EventLoop.

(** After a first request without a query. *)
Definition after_400 : World :=
  {| vectorStore := Some Sample.indexed;
     log := Sample.pass_events ++ [EvReadBody] |}.

(** After a second request, for "dogs", with the service down. *)
Definition after_503 : World :=
  {| vectorStore := Some Sample.indexed;
     log := log after_400 ++ [EvReadBody; EvEmbed ["dogs"]] |}.

(** After a request for "dogs" on the warm store, the service down. *)
Definition warm_503 : World :=
  {| vectorStore := Some Sample.indexed;
     log := log Sample.warm ++ [EvReadBody; EvEmbed ["dogs"]] |}.

(** The sample deployment with an unreadable [b.pdf]. *)
Definition env_bad_pdf : Env :=
  {| cwd := cwd Sample.env;
     readdirSync := readdirSync Sample.env;
     pdf_load := fun path =>
       if String.eqb path "/app/public/cv/b.pdf"
       then Err (FileSystemError "bad XRef entry")
       else pdf_load Sample.env path;
     remote_embed := remote_embed Sample.env;
     batch_limit := batch_limit Sample.env;
     similarity := similarity Sample.env;
     JSON_stringify := JSON_stringify Sample.env |}.

(** Requests that have not started yet. *)
Definition is_called (t : Task) : bool :=
  match t with
  | Called => true
  | _ => false
  end.

Definition waiting (tasks : list Task) : nat :=
  List.length (filter is_called tasks).

(** Every request resumed four times in a row, in the order of
    arrival. *)
Definition in_turn (n : nat) : list nat :=
  flat_map (fun i => [i; i; i; i]) (seq 0 n).

End Runs.

(** ** The route with its failures caught *)

Module Hardened.
Import Chunker VectorIndex Route.

(** What a step throws here: what a collaborator threw, or a
    [new Error(msg)] of the route's own. *)
Inductive Thrown :=
| Original (e : Error)
| NewError (msg : string).

Definition H (A : Type) : Type := World -> (Thrown + A) * World.

Definition retH {A} (a : A) : H A := fun w => (inr a, w).

Definition throwH {A} (t : Thrown) : H A := fun w => (inl t, w).

Definition bindH {A B} (m : H A) (k : A -> H B) : H B :=
  fun w =>
    match m w with
    | (inr a, w') => k a w'
    | (inl t, w') => (inl t, w')
    end.

(** A step of the plain route, run here. *)
Definition plain {A} (m : M A) : H A :=
  fun w =>
    match m w with
    | (Ok a, w') => (inr a, w')
    | (Err e, w') => (inl (Original e), w')
    end.

(** [try { m } catch (error) { handler }] *)
Definition try_catch {A} (m : H A) (handler : Thrown -> H A) : H A :=
  fun w =>
    match m w with
    | (inr a, w') => (inr a, w')
    | (inl t, w') => handler t w'
    end.

Notation "x <~ c1 ;; c2" := (bindH c1 (fun x => c2))
  (at level 61, c1 at next level, right associativity).

Definition CHUNK_SIZE : nat := 1000.
Definition CHUNK_OVERLAP : nat := 200.

Section Paths.
(** [path.join] of the platform. *)
Variable path_join : string -> string -> string.

Definition PDF_DIRECTORY (env : Env) : string :=
  path_join (cwd env) "public/cv".

Definition loadPdfDocuments (env : Env) : H (list RawUnit) :=
  try_catch
    (files <~ plain (record [EvReadDir (PDF_DIRECTORY env)] ;;
                     lift (readdirSync env (PDF_DIRECTORY env))) ;;
     let pdfFiles := filter (endsWith ".pdf") files in
     match pdfFiles with
     | [] => retH []
     | _ :: _ =>
         let loaders :=
           map (fun file => path_join (PDF_DIRECTORY env) file) pdfFiles in
         docs <~ plain (load_all env loaders) ;;
         retH (List.concat docs)
     end)
    (fun _ => throwH (NewError "Failed to load PDF documents")).

Definition splitDocuments (documents : list RawUnit) : list Chunk :=
  flat_map (fun d => match chunk d CHUNK_SIZE CHUNK_OVERLAP with
                     | Some cs => cs
                     | None => []
                     end) documents.

Definition createVectorStore (env : Env) (documents : list Chunk)
  : H MemoryVectorStore :=
  plain (addDocuments env documents {| memoryVectors := [] |}).

Definition initVectorStore (env : Env) : H MemoryVectorStore :=
  fun w =>
    match vectorStore w with
    | Some store => (inr store, w)
    | None =>
        try_catch
          (documents <~ loadPdfDocuments env ;;
           let splits := splitDocuments documents in
           store <~ createVectorStore env splits ;;
           _ <~ plain (publish store) ;;
           retH store)
          (fun _ => throwH (NewError "Vector store initialization failed"))
          w
    end.

Definition POST (env : Env) (req : Request) : H Response :=
  try_catch
    (store <~ initVectorStore env ;;
     body <~ plain (record [EvReadBody] ;; lift (json req)) ;;
     match body_query body with
     | None | Some EmptyString =>
         retH (PlainResponse "Missing query" 400)
     | Some query =>
         searchResults <~
           plain (similaritySearch env store query default_k) ;;
         stream <~
           plain (lift (start env searchResults fresh_controller)) ;;
         retH (StreamResponse stream sse_headers)
     end)
    (fun _ => retH (PlainResponse "Internal server error" 500)).

End Paths.

(** [path.join] on a directory and a name that need no normalizing. *)
Definition join_plain (dir name : string) : string :=
  (dir ++ "/" ++ name)%string.

End Hardened.

(* ===================================================================== *)
(** * Part II: properties                                                 *)
(* ===================================================================== *)

(** ** Chunker *)

Lemma ceil_div_bounds (a b : nat) :
  0 < b -> a <= Chunker.ceil_div a b * b /\ Chunker.ceil_div a b * b < a + b.
Proof.
  intros Hb. unfold Chunker.ceil_div.
  pose proof (Nat.div_mod_eq (a + (b - 1)) b) as E.
  pose proof (Nat.mod_upper_bound (a + (b - 1)) b) as U.
  split; nia.
Qed.

Lemma ceil_div_one (a b : nat) : 0 < a -> a <= b -> Chunker.ceil_div a b = 1.
Proof.
  intros Ha Hab. unfold Chunker.ceil_div. symmetry.
  apply Nat.div_unique with (r := a - 1); lia.
Qed.

Lemma ceil_div_step (a b : nat) :
  0 < b -> Chunker.ceil_div (a + b) b = S (Chunker.ceil_div a b).
Proof.
  intros Hb. unfold Chunker.ceil_div.
  replace (a + b + (b - 1)) with (a + (b - 1) + 1 * b) by lia.
  rewrite Nat.div_add by lia. lia.
Qed.

Lemma substring_full (s : string) : substring 0 (String.length s) s = s.
Proof.
  induction s as [|a s IH]; [reflexivity|].
  cbn [String.length substring]. now rewrite IH.
Qed.

Lemma substring_empty (n m : nat) : substring n m EmptyString = EmptyString.
Proof. destruct n, m; reflexivity. Qed.

(** A slice of a slice is a slice of the whole. *)
Lemma substring_substring (s : string) :
  forall c d a b,
    a + b <= d ->
    substring a b (substring c d s) = substring (c + a) b s.
Proof.
  induction s as [|x s IH]; intros c d a b Hab.
  - now rewrite !substring_empty.
  - destruct c as [|c].
    + destruct d as [|d].
      * assert (a = 0) by lia. assert (b = 0) by lia. now subst.
      * destruct a as [|a].
        -- destruct b as [|b]; [reflexivity|].
           cbn [substring Nat.add]. f_equal.
           rewrite (IH 0 d 0 b) by lia. reflexivity.
        -- cbn [substring Nat.add].
           rewrite (IH 0 d a b) by lia. reflexivity.
    + cbn [substring Nat.add]. apply IH. assumption.
Qed.

Example chunk_letters :
  Chunker.chunk Sample.letters 4 1 = Some Sample.letters_chunks.
Proof. reflexivity. Qed.

(** Outside the precondition the walk does not advance. *)
Example chunk_no_progress : Chunker.chunk Sample.letters 4 4 = None.
Proof. reflexivity. Qed.

Section ChunkerFacts.
Import Chunker.

Variable unit : RawUnit.
Variables M O : nat.
Hypothesis overlap_lt : O < M.

Local Abbreviation L := (String.length (text unit)).

(** One step of the walk, read backwards. *)
Lemma walk_inv (fuel cursor : nat) (cs : list Chunk) :
  walk fuel unit M O cursor = Some cs ->
  exists fuel', fuel = S fuel' /\
    ((L <= cursor + M /\ cs = [emit unit cursor L]) \/
     (cursor + M < L /\
      exists rest,
        walk fuel' unit M O (cursor + (M - O)) = Some rest /\
        cs = emit unit cursor (cursor + M) :: rest)).
Proof.
  destruct fuel as [|fuel']; [discriminate|].
  cbn [walk]. intros H. exists fuel'. split; [reflexivity|].
  destruct (Nat.leb_spec L (cursor + M)) as [Hle|Hgt].
  - left. split; [assumption|].
    injection H as <-. now rewrite Nat.min_r by lia.
  - right. split; [assumption|].
    destruct (walk fuel' unit M O (cursor + (M - O))) as [rest|];
      [|discriminate].
    exists rest. split; [reflexivity|].
    injection H as <-. now rewrite Nat.min_l by lia.
Qed.

(** The walk ends, given one step of fuel per remaining character. *)
Lemma walk_length (fuel cursor : nat) :
  cursor + O < L -> L - cursor < fuel ->
  exists cs,
    walk fuel unit M O cursor = Some cs /\
    List.length cs = ceil_div (L - cursor - O) (M - O).
Proof.
  revert cursor. induction fuel as [|fuel IH]; intros cursor Hc Hf;
    [lia|].
  cbn [walk].
  destruct (Nat.leb_spec L (cursor + M)) as [Hle|Hgt].
  - eexists. split; [reflexivity|].
    cbn [List.length]. symmetry. apply ceil_div_one; lia.
  - destruct (IH (cursor + (M - O))) as (rest & Hw & Hl); [lia|lia|].
    rewrite Hw. eexists. split; [reflexivity|].
    cbn [List.length]. rewrite Hl.
    replace (L - cursor - O)
      with (L - (cursor + (M - O)) - O + (M - O)) by lia.
    rewrite ceil_div_step by lia. reflexivity.
Qed.

Lemma walk_head (fuel cursor : nat) (c : Chunk) (rest : list Chunk) :
  walk fuel unit M O cursor = Some (c :: rest) ->
  offsetStart c = cursor /\ offsetEnd c = Nat.min (cursor + M) L.
Proof.
  intros H. apply walk_inv in H.
  destruct H as (fuel' & _ & [[Hle E]|[Hgt (r & _ & E)]]);
    injection E as -> _; cbn [emit offsetStart offsetEnd]; lia.
Qed.

Lemma walk_pair (fuel cursor : nat) (cs : list Chunk) (i : nat)
      (c c' : Chunk) :
  walk fuel unit M O cursor = Some cs ->
  nth_error cs i = Some c ->
  nth_error cs (S i) = Some c' ->
  offsetEnd c = offsetStart c + M /\
  offsetStart c' + O = offsetEnd c /\
  offsetEnd c < L /\
  offsetEnd c < offsetEnd c'.
Proof.
  revert cursor cs i.
  induction fuel as [|fuel IH]; intros cursor cs i Hw Hc Hc';
    [discriminate|].
  apply walk_inv in Hw.
  destruct Hw as (fuel' & [= <-] & [[Hle ->]|[Hgt (rest & Hr & ->)]]).
  - destruct i; discriminate.
  - destruct i as [|i].
    + injection Hc as <-. cbn [nth_error] in Hc'.
      destruct rest as [|r rest']; [discriminate|].
      injection Hc' as ->.
      apply walk_head in Hr. destruct Hr as [Hs He].
      cbn [emit offsetStart offsetEnd]. lia.
    + cbn [nth_error] in Hc, Hc'. eapply IH; eassumption.
Qed.

Lemma walk_last (fuel cursor : nat) (cs : list Chunk) (c : Chunk) :
  walk fuel unit M O cursor = Some cs ->
  nth_error cs (pred (List.length cs)) = Some c ->
  offsetEnd c = L /\ offsetEnd c - offsetStart c <= M.
Proof.
  revert cursor cs.
  induction fuel as [|fuel IH]; intros cursor cs Hw Hc; [discriminate|].
  apply walk_inv in Hw.
  destruct Hw as (fuel' & [= <-] & [[Hle ->]|[Hgt (rest & Hr & ->)]]).
  - injection Hc as <-. cbn [emit offsetStart offsetEnd]. lia.
  - destruct rest as [|r rest'].
    + apply walk_inv in Hr.
      destruct Hr as (? & _ & [[_ E]|[_ (? & _ & E)]]); discriminate.
    + cbn [List.length pred nth_error] in Hc.
      apply (IH _ _ Hr). exact Hc.
Qed.

Lemma walk_slices (fuel cursor : nat) (cs : list Chunk) (c : Chunk) :
  walk fuel unit M O cursor = Some cs ->
  In c cs ->
  c = emit unit (offsetStart c) (offsetEnd c) /\
  offsetEnd c - offsetStart c <= M.
Proof.
  revert cursor cs.
  induction fuel as [|fuel IH]; intros cursor cs Hw Hc; [discriminate|].
  apply walk_inv in Hw.
  destruct Hw as (fuel' & [= <-] & [[Hle ->]|[Hgt (rest & Hr & ->)]]).
  - destruct Hc as [<-|[]]. cbn [emit offsetStart offsetEnd].
    split; [reflexivity|lia].
  - destruct Hc as [<-|Hc].
    + cbn [emit offsetStart offsetEnd]. split; [reflexivity|lia].
    + eapply IH; eassumption.
Qed.

End ChunkerFacts.

(** C5.  For a raw unit whose text has length [L], chunked with
    [maxChunkSize = M] and [overlapSize = O] where [0 <= O < M], the
    chunker returns a chunk sequence; it has exactly
    [ceil ((L - O) / (M - O))] chunks when [L > M], and is the single
    chunk holding the full text when [L <= M]. *)
Theorem chunk_count (unit : Chunker.RawUnit) (M O : nat) :
  O < M ->
  exists cs,
    Chunker.chunk unit M O = Some cs /\
    (M < String.length (Chunker.text unit) ->
     List.length cs =
       Chunker.ceil_div (String.length (Chunker.text unit) - O) (M - O)) /\
    (String.length (Chunker.text unit) <= M ->
     cs = [Chunker.mkChunk (Chunker.text unit) (Chunker.sourceId unit)
             0 (String.length (Chunker.text unit)) (Chunker.extra unit)]).
Proof.
  intros HO. unfold Chunker.chunk.
  destruct (le_lt_dec (String.length (Chunker.text unit)) M) as [Hle|Hgt].
  - cbn [Chunker.walk Nat.add].
    destruct (Nat.leb_spec (String.length (Chunker.text unit)) M); [|lia].
    eexists. split; [reflexivity|]. split; [lia|]. intros _.
    unfold Chunker.emit. rewrite Nat.min_r by lia.
    rewrite Nat.sub_0_r, substring_full. reflexivity.
  - destruct (walk_length unit M O HO
                (S (String.length (Chunker.text unit))) 0)
      as (cs & Hw & Hl); [lia|lia|].
    exists cs. split; [exact Hw|]. split; [|lia].
    intros _. rewrite Hl. now rewrite Nat.sub_0_r.
Qed.

Lemma chunk_count_witness :
  exists cs,
    Chunker.chunk Sample.dogs 20 5 = Some cs /\
    (20 < String.length (Chunker.text Sample.dogs) ->
     List.length cs =
       Chunker.ceil_div (String.length (Chunker.text Sample.dogs) - 5)
                        (20 - 5)) /\
    (String.length (Chunker.text Sample.dogs) <= 20 ->
     cs = [Chunker.mkChunk (Chunker.text Sample.dogs)
             (Chunker.sourceId Sample.dogs)
             0 (String.length (Chunker.text Sample.dogs))
             (Chunker.extra Sample.dogs)]).
Proof. apply (chunk_count Sample.dogs 20 5). lia. Defined.

(** C6.  In the chunk sequence of one raw unit, every chunk that has a
    successor is [M] characters long and its last [O] characters are the
    first [O] characters of its successor: the successor starts [O]
    before the chunk ends, and the texts agree there.  Only the final
    chunk may be shorter than [M]; it ends where the text ends and has
    nothing after it to overlap with. *)
Theorem chunk_overlap (unit : Chunker.RawUnit) (M O : nat)
        (cs : list Chunker.Chunk) :
  O < M ->
  Chunker.chunk unit M O = Some cs ->
  (forall i c c',
      nth_error cs i = Some c ->
      nth_error cs (S i) = Some c' ->
      Chunker.offsetEnd c - Chunker.offsetStart c = M /\
      Chunker.offsetStart c' + O = Chunker.offsetEnd c /\
      Chunker.offsetEnd c < Chunker.offsetEnd c' /\
      substring (M - O) O (Chunker.chunk_text c) =
        substring 0 O (Chunker.chunk_text c')) /\
  (forall c,
      nth_error cs (pred (List.length cs)) = Some c ->
      Chunker.offsetEnd c = String.length (Chunker.text unit) /\
      Chunker.offsetEnd c - Chunker.offsetStart c <= M) /\
  (forall c,
      In c cs ->
      Chunker.chunk_text c =
        substring (Chunker.offsetStart c)
                  (Chunker.offsetEnd c - Chunker.offsetStart c)
                  (Chunker.text unit)).
Proof.
  intros HO Hw. unfold Chunker.chunk in Hw.
  split; [|split].
  - intros i c c' Hc Hc'.
    destruct (walk_pair unit M O HO _ _ _ _ _ _ Hw Hc Hc')
      as (H1 & H2 & H3 & H4).
    destruct (walk_slices unit M O HO _ _ _ c Hw (nth_error_In _ _ Hc))
      as [Ec _].
    destruct (walk_slices unit M O HO _ _ _ c' Hw (nth_error_In _ _ Hc'))
      as [Ec' _].
    repeat split; try lia.
    rewrite Ec, Ec'. cbn [Chunker.emit Chunker.chunk_text].
    rewrite !substring_substring by lia. f_equal. lia.
  - intros c Hc. exact (walk_last unit M O HO _ _ _ _ Hw Hc).
  - intros c Hc.
    destruct (walk_slices unit M O HO _ _ _ c Hw Hc) as [Ec _].
    rewrite Ec at 1. reflexivity.
Qed.

Lemma chunk_overlap_witness :
  (forall i c c',
      nth_error Sample.letters_chunks i = Some c ->
      nth_error Sample.letters_chunks (S i) = Some c' ->
      Chunker.offsetEnd c - Chunker.offsetStart c = 4 /\
      Chunker.offsetStart c' + 1 = Chunker.offsetEnd c /\
      Chunker.offsetEnd c < Chunker.offsetEnd c' /\
      substring (4 - 1) 1 (Chunker.chunk_text c) =
        substring 0 1 (Chunker.chunk_text c')) /\
  (forall c,
      nth_error Sample.letters_chunks
                (pred (List.length Sample.letters_chunks)) = Some c ->
      Chunker.offsetEnd c = String.length (Chunker.text Sample.letters) /\
      Chunker.offsetEnd c - Chunker.offsetStart c <= 4) /\
  (forall c,
      In c Sample.letters_chunks ->
      Chunker.chunk_text c =
        substring (Chunker.offsetStart c)
                  (Chunker.offsetEnd c - Chunker.offsetStart c)
                  (Chunker.text Sample.letters)).
Proof.
  apply (chunk_overlap Sample.letters 4 1 Sample.letters_chunks);
    [lia | reflexivity].
Defined.

(** ** Vector index *)

Example query_tied :
  map VectorIndex.result_chunk
      (VectorIndex.query Sample.dot [1%Q] 3 Sample.tied)
    = [Sample.slot 1; Sample.slot 0; Sample.slot 2] /\
  map VectorIndex.result_chunk
      (VectorIndex.query Sample.dot [1%Q] 2 Sample.tied)
    = [Sample.slot 1; Sample.slot 0].
Proof. split; vm_compute; reflexivity. Qed.

Section IndexFacts.
Import Chunker VectorIndex.

Variable similarity : Embedding -> Embedding -> Q.
Variable v : Embedding.

Local Abbreviation sc := (scored_at similarity v).

Lemma insert_length (r : QueryResult) (l : list QueryResult) :
  List.length (insert r l) = S (List.length l).
Proof.
  induction l as [|r' l IH]; [reflexivity|].
  cbn [insert]. destruct (Qle_bool (score r') (score r));
    cbn [List.length]; now rewrite ?IH.
Qed.

Lemma rank_length (l : list QueryResult) :
  List.length (rank l) = List.length l.
Proof.
  induction l as [|r l IH]; [reflexivity|].
  cbn [rank List.length]. now rewrite insert_length, IH.
Qed.

(** Inserting an entry that was added before all the ranked ones. *)
Lemma insert_ranked (x : nat * IndexEntry) (l : list (nat * IndexEntry)) :
  StronglySorted (ahead similarity v) l ->
  Forall (fun y => fst x < fst y) l ->
  exists l',
    Permutation l' (x :: l) /\
    StronglySorted (ahead similarity v) l' /\
    insert (sc x) (map sc l) = map sc l'.
Proof.
  induction l as [|y l IH]; intros Hs Hx.
  - exists [x]. repeat split; auto. constructor; constructor.
  - apply StronglySorted_inv in Hs. destruct Hs as [Hs Hy].
    apply Forall_cons_iff in Hx. destruct Hx as [Hxy Hx].
    cbn [map insert].
    destruct (Qle_bool (score (sc y)) (score (sc x))) eqn:E.
    + exists (x :: y :: l). repeat split; auto.
      apply Qle_bool_iff in E.
      constructor; [constructor; assumption|].
      constructor.
      * apply Qle_lt_or_eq in E. destruct E as [E|E];
          [left; exact E | right; split; assumption].
      * rewrite Forall_forall in Hy, Hx |- *. intros z Hz.
        destruct (Hy z Hz) as [Hlt|[Heq _]].
        -- left. eapply Qlt_le_trans; eassumption.
        -- assert (Hle : (score (sc z) <= score (sc x))%Q)
             by (rewrite Heq; exact E).
           apply Qle_lt_or_eq in Hle. destruct Hle as [Hle|Hle];
             [left; exact Hle | right; split; [exact Hle | exact (Hx z Hz)]].
    + destruct (IH Hs Hx) as (l' & Hp & Hs' & Hi).
      exists (y :: l'). split; [|split].
      * rewrite Hp. apply perm_swap.
      * constructor; [assumption|].
        rewrite Forall_forall in Hy |- *. intros z Hz.
        apply (Permutation_in _ Hp) in Hz. destruct Hz as [<-|Hz].
        -- left. apply Qnot_le_lt. intros Hle.
           apply Qle_bool_iff in Hle. rewrite Hle in E. discriminate.
        -- exact (Hy z Hz).
      * cbn [map]. now rewrite Hi.
Qed.

Lemma rank_ranked (l : list (nat * IndexEntry)) :
  StronglySorted (fun a b => fst a < fst b) l ->
  exists l',
    Permutation l' l /\
    StronglySorted (ahead similarity v) l' /\
    rank (map sc l) = map sc l'.
Proof.
  induction l as [|x l IH]; intros Hs.
  - exists []. repeat split; constructor.
  - apply StronglySorted_inv in Hs. destruct Hs as [Hs Hx].
    destruct (IH Hs) as (l1 & Hp1 & Hs1 & Hr1).
    destruct (insert_ranked x l1 Hs1) as (l' & Hp & Hs' & Hi).
    + rewrite Forall_forall in Hx |- *. intros y Hy.
      apply Hx. exact (Permutation_in _ Hp1 Hy).
    + exists l'. split; [|split].
      * rewrite Hp. now constructor.
      * assumption.
      * cbn [map rank]. now rewrite Hr1.
Qed.

Lemma combine_seq_sorted (index : list IndexEntry) :
  forall start,
    StronglySorted (fun a b : nat * IndexEntry => fst a < fst b)
                   (combine (seq start (List.length index)) index).
Proof.
  induction index as [|e index IH]; intros start; [constructor|].
  cbn [List.length seq combine]. constructor; [apply IH|].
  rewrite Forall_forall. intros [p e'] Hin.
  apply in_combine_l in Hin. apply in_seq in Hin. cbn [fst]. lia.
Qed.

Lemma map_snd_combine_seq (index : list IndexEntry) :
  forall start,
    map snd (combine (seq start (List.length index)) index) = index.
Proof.
  induction index as [|e index IH]; intros start; [reflexivity|].
  cbn [List.length seq combine map snd]. now rewrite IH.
Qed.

Lemma firstn_incl {A} (l : list A) :
  forall k x, In x (firstn k l) -> In x l.
Proof.
  induction l as [|a l IH]; intros [|k] x Hx; cbn [firstn] in Hx;
    try contradiction.
  destruct Hx as [<-|Hx]; [now left | right; eapply IH; eassumption].
Qed.

Lemma firstn_sorted {A} (R : A -> A -> Prop) (l : list A) :
  forall k, StronglySorted R l -> StronglySorted R (firstn k l).
Proof.
  induction l as [|a l IH]; intros [|k] Hs; cbn [firstn];
    try constructor.
  - apply IH. now apply StronglySorted_inv in Hs.
  - apply StronglySorted_inv in Hs. destruct Hs as [_ Ha].
    rewrite Forall_forall in Ha |- *. intros x Hx.
    apply Ha. eapply firstn_incl; eassumption.
Qed.

Lemma ranked_scores (l : list (nat * IndexEntry)) :
  StronglySorted (ahead similarity v) l ->
  StronglySorted (fun r r' => (score r' <= score r)%Q) (map sc l).
Proof.
  induction 1 as [|a l Hs IH Ha]; cbn [map]; constructor;
    [assumption|].
  rewrite Forall_forall in Ha |- *. intros r Hr.
  apply in_map_iff in Hr. destruct Hr as (b & <- & Hb).
  destruct (Ha b Hb) as [Hlt|[Heq _]].
  - apply Qlt_le_weak. exact Hlt.
  - rewrite Heq. apply Qle_refl.
Qed.

End IndexFacts.

(** C4.  For every index with entries [E] (empty or not), every query
    embedding [v] and every [k], [query v k] returns exactly
    [min k |E|] results, in non-increasing order of score; they are the
    first [k] of the ranking of all entries in which a larger score comes
    first and, between equal scores, the entry added earlier comes
    first. *)
Theorem query_ranked (similarity : VectorIndex.Embedding ->
                                   VectorIndex.Embedding -> Q)
        (v : VectorIndex.Embedding) (k : nat)
        (index : list VectorIndex.IndexEntry) :
  List.length (VectorIndex.query similarity v k index)
    = Nat.min k (List.length index) /\
  StronglySorted
    (fun r r' => (VectorIndex.score r' <= VectorIndex.score r)%Q)
    (VectorIndex.query similarity v k index) /\
  exists ranking,
    Permutation ranking (VectorIndex.numbered index) /\
    StronglySorted (VectorIndex.ahead similarity v) ranking /\
    VectorIndex.query similarity v k index =
      map (VectorIndex.scored_at similarity v) (firstn k ranking).
Proof.
  destruct (rank_ranked similarity v (VectorIndex.numbered index)
              (combine_seq_sorted index 0))
    as (ranking & Hp & Hs & Hr).
  assert (Hm : map (VectorIndex.scored_at similarity v)
                   (VectorIndex.numbered index) =
               map (VectorIndex.scored similarity v) index).
  { unfold VectorIndex.numbered, VectorIndex.scored_at.
    rewrite <- map_map, map_snd_combine_seq. reflexivity. }
  rewrite Hm in Hr.
  unfold VectorIndex.query.
  split; [|split].
  - rewrite length_firstn, rank_length, length_map. reflexivity.
  - rewrite Hr. apply firstn_sorted.
    apply (ranked_scores similarity v). exact Hs.
  - exists ranking. split; [exact Hp|]. split; [exact Hs|].
    rewrite Hr, firstn_map. reflexivity.
Qed.

(** ** The route: what each step does to the module state *)

Example endsWith_pdf :
  Route.endsWith ".pdf" "cv.pdf" = true /\
  Route.endsWith ".pdf" "pdf" = false /\
  Route.endsWith ".pdf" "cv.pdf.txt" = false /\
  Route.endsWith ".pdf" "cv.PDF" = false.
Proof. repeat split. Qed.

Example batches_of_two :
  Route.batches 2 ["a"; "b"; "c"; "d"; "e"] = [["a"; "b"]; ["c"; "d"]; ["e"]].
Proof. reflexivity. Qed.

Section RouteFacts.
Import Chunker VectorIndex Route.

Variable env : Env.

Lemma frames_ret {A} (a : A) : frames (ret a).
Proof.
  intros w r w' [= <- <-]. split; [reflexivity|].
  exists []. now rewrite app_nil_r.
Qed.

Lemma frames_throw {A} (e : Error) : frames (@throw A e).
Proof.
  intros w r w' [= <- <-]. split; [reflexivity|].
  exists []. now rewrite app_nil_r.
Qed.

Lemma frames_lift {A} (x : Result A) : frames (lift x).
Proof.
  intros w r w' [= <- <-]. split; [reflexivity|].
  exists []. now rewrite app_nil_r.
Qed.

Lemma frames_record (evs : list Event) : frames (record evs).
Proof.
  intros w r w' [= <- <-]. split; [reflexivity|]. now exists evs.
Qed.

Lemma frames_bind {A B} (m : M A) (k : A -> M B) :
  frames m -> (forall a, frames (k a)) -> frames (bind m k).
Proof.
  intros Hm Hk w r w' H. unfold bind in H.
  destruct (m w) as [[a|e] w1] eqn:E.
  - destruct (Hm _ _ _ E) as [Hv [evs Hl]].
    destruct (Hk a _ _ _ H) as [Hv' [evs' Hl']].
    split; [congruence|].
    exists (evs ++ evs'). now rewrite Hl', Hl, app_assoc.
  - injection H as <- <-. exact (Hm _ _ _ E).
Qed.

Lemma frames_embed_batch (batch : list string) :
  frames (embed_batch env batch).
Proof.
  unfold embed_batch. apply frames_bind; [apply frames_record|].
  intros _. destruct (remote_embed env batch) as [vs|status].
  - destruct (List.length vs =? List.length batch);
      [apply frames_ret | apply frames_throw].
  - apply frames_throw.
Qed.

Lemma frames_embed_batches (bs : list (list string)) :
  frames (embed_batches env bs).
Proof.
  induction bs as [|b bs IH]; cbn [embed_batches]; [apply frames_ret|].
  apply frames_bind; [apply frames_embed_batch|]. intros vs.
  apply frames_bind; [exact IH|]. intros rest. apply frames_ret.
Qed.

Lemma frames_addDocuments (docs : list Chunk) (store : MemoryVectorStore) :
  frames (addDocuments env docs store).
Proof.
  unfold addDocuments, embed.
  apply frames_bind; [apply frames_embed_batches|].
  intros vs. apply frames_ret.
Qed.

Lemma frames_load_all (loaders : list string) :
  frames (load_all env loaders).
Proof.
  unfold load_all. apply frames_bind; [apply frames_record|].
  intros _. apply frames_lift.
Qed.


(** *** The embedder wrapper *)

Lemma concat_batches_fuel {A} (limit : nat) :
  0 < limit ->
  forall fuel (l : list A),
    List.length l <= fuel ->
    List.concat (batches_fuel fuel limit l) = l.
Proof.
  intros Hl. induction fuel as [|fuel IH]; intros l Hf.
  - destruct l; [reflexivity | cbn [List.length] in Hf; lia].
  - destruct l as [|a l]; [reflexivity|].
    cbn [batches_fuel List.concat]. rewrite IH.
    + apply firstn_skipn.
    + rewrite length_skipn. cbn [List.length] in *. lia.
Qed.

Lemma concat_batches {A} (limit : positive) (l : list A) :
  List.concat (batches limit l) = l.
Proof.
  unfold batches. apply concat_batches_fuel;
    [apply Pos2Nat.is_pos | apply Nat.le_refl].
Qed.

Lemma embed_batch_length (batch : list string) (w w' : World)
      (vs : list Embedding) :
  embed_batch env batch w = (Ok vs, w') ->
  List.length vs = List.length batch.
Proof.
  unfold embed_batch, bind, record, ret, throw.
  destruct (remote_embed env batch) as [us|status]; [|discriminate].
  destruct (Nat.eqb_spec (List.length us) (List.length batch));
    [|discriminate].
  now intros [= <- _].
Qed.

Lemma embed_batches_length (bs : list (list string)) :
  forall w w' vs,
    embed_batches env bs w = (Ok vs, w') ->
    List.length vs = List.length (List.concat bs).
Proof.
  induction bs as [|b bs IH]; intros w w' vs H.
  - injection H as <- _. reflexivity.
  - cbn [embed_batches] in H. unfold bind at 1 in H.
    destruct (embed_batch env b w) as [[us|e] w1] eqn:E1; [|discriminate].
    unfold bind at 1 in H.
    destruct (embed_batches env bs w1) as [[rest|e] w2] eqn:E2;
      [|discriminate].
    injection H as <- _.
    cbn [List.concat]. rewrite !length_app.
    now rewrite (embed_batch_length _ _ _ _ E1), (IH _ _ _ E2).
Qed.

Lemma embed_length (texts : list string) (w w' : World)
      (vs : list Embedding) :
  embed env texts w = (Ok vs, w') ->
  List.length vs = List.length texts.
Proof.
  unfold embed. intros H. apply embed_batches_length in H.
  now rewrite concat_batches in H.
Qed.

Lemma embed_batches_up (bs : list (list string)) :
  embedder_up env ->
  forall w, exists vs w', embed_batches env bs w = (Ok vs, w').
Proof.
  intros Hup. induction bs as [|b bs IH]; intros w.
  - now exists [], w.
  - cbn [embed_batches]. unfold bind at 1.
    unfold embed_batch at 1, bind at 1, record at 1.
    destruct (Hup b) as (us & -> & Hlen).
    rewrite Hlen, Nat.eqb_refl. unfold ret at 1.
    unfold bind at 1.
    match goal with
    | |- context [embed_batches env bs ?w1] =>
        destruct (IH w1) as (rest & w2 & ->)
    end.
    now eexists _, _.
Qed.

Lemma entries_chunks (vs : list Embedding) (docs : list Chunk) :
  List.length vs = List.length docs ->
  map entry_chunk (entries vs docs) = docs.
Proof.
  revert docs. induction vs as [|x vs IH]; intros [|d docs] H;
    try discriminate; [reflexivity|].
  cbn [entries combine map entry_chunk snd]. f_equal.
  apply IH. now injection H.
Qed.

Lemma addDocuments_ok (docs : list Chunk) (store store' : MemoryVectorStore)
      (w w' : World) :
  addDocuments env docs store w = (Ok store', w') ->
  exists vs,
    List.length vs = List.length docs /\
    memoryVectors store' = memoryVectors store ++ entries vs docs.
Proof.
  unfold addDocuments, bind. intros H.
  destruct (embed env (map chunk_text docs) w) as [[vs|e] w1] eqn:E;
    [|discriminate].
  injection H as <- _. exists vs. split; [|reflexivity].
  apply embed_length in E. now rewrite length_map in E.
Qed.

Lemma addDocuments_up (docs : list Chunk) (store : MemoryVectorStore)
      (w : World) :
  embedder_up env ->
  exists store' w', addDocuments env docs store w = (Ok store', w').
Proof.
  intros Hup. unfold addDocuments, bind, embed.
  destruct (embed_batches_up
              (batches (batch_limit env) (map chunk_text docs)) Hup w)
    as (vs & w' & ->).
  now eexists _, _.
Qed.

(** *** [initVectorStore] *)

Lemma init_warm (w : World) (store : MemoryVectorStore) :
  vectorStore w = Some store ->
  initVectorStore env w = (Ok store, w).
Proof. intros H. unfold initVectorStore. now rewrite H. Qed.

Ltac run_pass H :=
  cbv beta iota zeta delta [bind record lift load_all publish ret] in H;
  cbn [vectorStore log] in H.

Lemma init_cold (w w' : World) (r : Result MemoryVectorStore) :
  vectorStore w = None ->
  initVectorStore env w = (r, w') ->
  match r with
  | Ok store =>
      vectorStore w' = Some store /\
      (exists splits,
          corpus env = Ok splits /\
          map entry_chunk (memoryVectors store) = splits) /\
      exists evs,
        log w' = log w ++ EvReadDir (cwd env ++ "/public/cv") :: evs
  | Err _ => vectorStore w' = None
  end.
Proof.
  intros Hc H. unfold initVectorStore in H. rewrite Hc in H.
  run_pass H. unfold corpus. cbv zeta.
  destruct (readdirSync env (cwd env ++ "/public/cv")) as [files|e];
    [|injection H as <- <-; exact Hc].
  cbn [bindR].
  match type of H with
  | context [collect ?x] => destruct (collect x) as [docs|e]
  end; [|injection H as <- <-; exact Hc].
  cbn [bindR].
  match type of H with
  | context [addDocuments env ?d ?s ?w1] =>
      destruct (addDocuments env d s w1) as [[store|e] w2] eqn:E
  end.
  - injection H as <- <-. cbn [vectorStore log].
    destruct (frames_addDocuments _ _ _ _ _ E) as [_ [evs Hl]].
    destruct (addDocuments_ok _ _ _ _ _ E) as (vs & Hlen & Hm).
    cbn [memoryVectors app] in Hm.
    split; [reflexivity|]. split.
    + eexists. split; [reflexivity|].
      rewrite Hm. now apply entries_chunks.
    + cbn [log] in Hl. rewrite Hl, <- !app_assoc. cbn [app].
      now eexists.
  - injection H as <- <-.
    destruct (frames_addDocuments _ _ _ _ _ E) as [Hv _].
    cbn [vectorStore] in Hv. congruence.
Qed.

(** With the corpus readable and the service up, a pass from a cold
    state goes through. *)
Lemma init_up (w : World) (splits : list Chunk) :
  vectorStore w = None ->
  corpus env = Ok splits ->
  embedder_up env ->
  exists store w', initVectorStore env w = (Ok store, w').
Proof.
  intros Hc Hcorpus Hup. unfold initVectorStore. rewrite Hc.
  unfold corpus in Hcorpus. cbv zeta in Hcorpus.
  cbv beta iota zeta delta [bind record lift load_all publish ret].
  cbn [vectorStore log].
  destruct (readdirSync env (cwd env ++ "/public/cv")) as [files|e];
    [|discriminate].
  cbn [bindR] in Hcorpus.
  match type of Hcorpus with
  | context [collect ?x] => destruct (collect x) as [docs|e]
  end; [|discriminate].
  match goal with
  | |- context [addDocuments env ?d ?s ?w1] =>
      destruct (addDocuments_up d s w1 Hup) as (store & w2 & ->)
  end.
  now eexists _, _.
Qed.

End RouteFacts.

(** ** The route: the handler *)

Section HandlerFacts.
Import Chunker VectorIndex Route.

Variable env : Env.

Lemma forEach_enqueue_open (results : list Chunk) :
  forall c,
    closed c = false ->
    forEach_enqueue env results c =
      Ok {| queue := queue c ++ map (sse_event env) results;
            closed := false |}.
Proof.
  induction results as [|r results IH]; intros [q cl] Hc;
    cbn [closed queue] in *; subst cl.
  - cbn [forEach_enqueue map]. now rewrite app_nil_r.
  - cbn [forEach_enqueue map]. unfold enqueue. cbn [closed queue bindR].
    rewrite IH by reflexivity. cbn [queue].
    now rewrite <- app_assoc.
Qed.

Lemma start_fresh (results : list Chunk) :
  start env results fresh_controller =
    Ok {| queue := map (sse_event env) results; closed := true |}.
Proof.
  unfold start. rewrite forEach_enqueue_open by reflexivity.
  reflexivity.
Qed.

Lemma similaritySearch_inv (store : MemoryVectorStore) (q : string)
      (k : nat) (w w' : World) (rs : list Chunk) :
  similaritySearch env store q k w = (Ok rs, w') ->
  exists v,
    remote_embed env [q] = UpOk [v] /\
    rs = map result_chunk
             (query (similarity env) v k (memoryVectors store)) /\
    w' = {| vectorStore := vectorStore w;
            log := log w ++ [EvEmbed [q]] |}.
Proof.
  unfold similaritySearch, embed_batch.
  cbv beta iota zeta delta [bind record ret throw].
  destruct (remote_embed env [q]) as [vs|status]; [|discriminate].
  destruct vs as [|v [|v' vs]]; cbn [List.length Nat.eqb];
    try discriminate.
  intros [= <- <-]. now exists v.
Qed.

(** What is left of [POST] once [initVectorStore] has returned. *)
Lemma POST_after_init (req : Request) (w w1 : World)
      (store : MemoryVectorStore) :
  initVectorStore env w = (Ok store, w1) ->
  POST env req w =
    let w2 := {| vectorStore := vectorStore w1;
                 log := log w1 ++ [EvReadBody] |} in
    match json req with
    | Err e => (Err e, w2)
    | Ok body =>
        match body_query body with
        | None | Some EmptyString =>
            (Ok (PlainResponse "Missing query" 400), w2)
        | Some query =>
            (searchResults <-
               similaritySearch env store query default_k ;;
             stream <- lift (start env searchResults fresh_controller) ;;
             ret (StreamResponse stream sse_headers)) w2
        end
    end.
Proof.
  intros H. unfold POST. unfold bind at 1. rewrite H.
  unfold bind at 1. unfold bind at 1, record at 1, lift at 1.
  cbv zeta. destruct (json req) as [body|e]; [|reflexivity].
  destruct (body_query body) as [[|c q]|]; reflexivity.
Qed.

Lemma POST_init_failed (req : Request) (w w1 : World) (e : Error) :
  initVectorStore env w = (Err e, w1) ->
  POST env req w = (Err e, w1).
Proof. intros H. unfold POST. unfold bind at 1. now rewrite H. Qed.

Lemma init_store (w w1 : World) (store : MemoryVectorStore) :
  initVectorStore env w = (Ok store, w1) ->
  vectorStore w1 = Some store.
Proof.
  intros H. destruct (vectorStore w) as [s|] eqn:E.
  - rewrite (init_warm env w s E) in H. injection H as <- <-. exact E.
  - apply (init_cold env w w1 (Ok store) E H).
Qed.

(** A streamed answer, read backwards. *)
Lemma POST_stream_inv (req : Request) (w w' : World)
      (stream : Controller) (headers : list (string * string)) :
  POST env req w = (Ok (StreamResponse stream headers), w') ->
  exists store w1 q v,
    initVectorStore env w = (Ok store, w1) /\
    json req = Ok {| body_query := Some q |} /\
    q <> EmptyString /\
    remote_embed env [q] = UpOk [v] /\
    stream =
      {| queue :=
           map (sse_event env)
               (map result_chunk
                    (query (similarity env) v default_k
                           (memoryVectors store)));
         closed := true |} /\
    w' = {| vectorStore := Some store;
            log := log w1 ++ [EvReadBody; EvEmbed [q]] |}.
Proof.
  intros H.
  destruct (initVectorStore env w) as [[store|e] w1] eqn:Hi;
    [|rewrite (POST_init_failed req w w1 e Hi) in H; discriminate].
  rewrite (POST_after_init req w w1 store Hi) in H. cbv zeta in H.
  pose proof (init_store w w1 store Hi) as Hs.
  destruct (json req) as [[bq]|e] eqn:Hj; [|discriminate].
  cbn [body_query] in H.
  destruct bq as [[|c q]|]; try discriminate.
  unfold bind at 1 in H.
  match type of H with
  | context [similaritySearch env store ?q ?k ?w2] =>
      destruct (similaritySearch env store q k w2) as [[rs|e] w3] eqn:Hq
  end; [|discriminate].
  apply similaritySearch_inv in Hq. destruct Hq as (v & Hv & -> & ->).
  unfold bind, lift, ret in H. rewrite start_fresh in H.
  injection H as <- _ <-.
  exists store, w1, (String c q), v.
  repeat split; try assumption; try reflexivity; try discriminate.
  cbn [vectorStore log]. rewrite Hs, <- app_assoc. reflexivity.
Qed.

End HandlerFacts.

(** C8.  A streamed answer carries one event per result of the index
    lookup, in the order of the lookup, and the stream is closed after
    the last: the queue is the image of the ranked results under the
    event encoding of line 59, duplicates included. *)
Theorem POST_streams_in_order (env : Route.Env) (req : Route.Request)
        (w w' : Route.World) (stream : Route.Controller)
        (headers : list (string * string)) :
  Route.POST env req w = (Route.Ok (Route.StreamResponse stream headers), w') ->
  exists store q v,
    Route.vectorStore w' = Some store /\
    Route.json req = Route.Ok (Route.mkBody (Some q)) /\
    Route.remote_embed env [q] = Route.UpOk [v] /\
    Route.queue stream =
      map (Route.sse_event env)
          (map VectorIndex.result_chunk
               (VectorIndex.query (Route.similarity env) v Route.default_k
                                  (Route.memoryVectors store))) /\
    Route.closed stream = true /\
    Route.start env
      (map VectorIndex.result_chunk
           (VectorIndex.query (Route.similarity env) v Route.default_k
                              (Route.memoryVectors store)))
      Route.fresh_controller = Route.Ok stream.
Proof.
  intros H. apply POST_stream_inv in H.
  destruct H as (store & w1 & q & v & _ & Hj & _ & Hv & -> & ->).
  exists store, q, v. cbn [Route.vectorStore Route.queue Route.closed].
  repeat split; try assumption. apply start_fresh.
Qed.

Lemma POST_streams_in_order_witness :
  exists store q v,
    Route.vectorStore
      (Route.mkWorld (Some Sample.indexed)
         (Sample.pass_events ++ [Route.EvReadBody; Route.EvEmbed ["dogs"]]))
      = Some store /\
    Route.json (Sample.request (Some "dogs")) = Route.Ok (Route.mkBody (Some q)) /\
    Route.remote_embed Sample.env [q] = Route.UpOk [v] /\
    Route.queue
      (Route.mkController
         (map (Route.sse_event Sample.env)
              [Sample.dogs_chunk; Sample.cats_chunk]) true) =
      map (Route.sse_event Sample.env)
          (map VectorIndex.result_chunk
               (VectorIndex.query (Route.similarity Sample.env) v
                                  Route.default_k
                                  (Route.memoryVectors store))) /\
    Route.closed
      (Route.mkController
         (map (Route.sse_event Sample.env)
              [Sample.dogs_chunk; Sample.cats_chunk]) true) = true /\
    Route.start Sample.env
      (map VectorIndex.result_chunk
           (VectorIndex.query (Route.similarity Sample.env) v
                              Route.default_k
                              (Route.memoryVectors store)))
      Route.fresh_controller =
    Route.Ok (Route.mkController
                (map (Route.sse_event Sample.env)
                     [Sample.dogs_chunk; Sample.cats_chunk]) true).
Proof.
  apply (POST_streams_in_order Sample.env (Sample.request (Some "dogs"))
           Sample.warm _ _ Route.sse_headers).
  vm_compute. reflexivity.
Defined.

(** C10.  A streamed answer has at most 4 events: the handler calls the
    search without [k], so the default of 4 applies whatever the request
    holds, and the count is [min 4] of the index size. *)
Theorem POST_at_most_four (env : Route.Env) (req : Route.Request)
        (w w' : Route.World) (stream : Route.Controller)
        (headers : list (string * string)) :
  Route.POST env req w = (Route.Ok (Route.StreamResponse stream headers), w') ->
  List.length (Route.queue stream) <= 4 /\
  exists store,
    Route.vectorStore w' = Some store /\
    List.length (Route.queue stream) =
      Nat.min 4 (List.length (Route.memoryVectors store)).
Proof.
  intros H. apply POST_stream_inv in H.
  destruct H as (store & w1 & q & v & _ & _ & _ & _ & -> & ->).
  cbn [Route.vectorStore Route.queue].
  assert (E : List.length
                (map (Route.sse_event env)
                   (map VectorIndex.result_chunk
                      (VectorIndex.query (Route.similarity env) v
                         Route.default_k (Route.memoryVectors store)))) =
              Nat.min 4 (List.length (Route.memoryVectors store))).
  { unfold VectorIndex.query.
    rewrite !length_map, length_firstn, rank_length, length_map.
    reflexivity. }
  split; [rewrite E; apply Nat.le_min_l|].
  exists store. split; [reflexivity | exact E].
Qed.

Lemma POST_at_most_four_witness :
  List.length (Route.queue Sample.top_four) <= 4 /\
  exists store,
    Route.vectorStore
      (Route.mkWorld (Route.vectorStore Sample.crowded)
         [Route.EvReadBody; Route.EvEmbed ["dogs"]]) = Some store /\
    List.length (Route.queue Sample.top_four) =
      Nat.min 4 (List.length (Route.memoryVectors store)).
Proof.
  apply (POST_at_most_four Sample.env (Sample.request (Some "dogs"))
           Sample.crowded _ _ Route.sse_headers).
  vm_compute. reflexivity.
Defined.




(** C2 as stated fails: a query of one space is not rejected, it is
    embedded and searched; and on a cold start the rejection of an empty
    query comes after the embedding calls of the indexing pass. *)
Lemma POST_rejects_blank_counterexample :
  (exists stream w',
      Route.POST Sample.env (Sample.request (Some " ")) Sample.cold
        = (Route.Ok (Route.StreamResponse stream Route.sse_headers), w') /\
      filter Route.is_network_call (Route.log w')
        = [Route.EvEmbed [Chunker.text Sample.cats; Chunker.text Sample.dogs];
           Route.EvEmbed [" "]]) /\
  (exists w',
      Route.POST Sample.env (Sample.request (Some "")) Sample.cold
        = (Route.Ok (Route.PlainResponse "Missing query" 400), w') /\
      filter Route.is_network_call (Route.log w')
        = [Route.EvEmbed
             [Chunker.text Sample.cats; Chunker.text Sample.dogs]]).
Proof.
  split.
  - eexists _, _. split; vm_compute; reflexivity.
  - eexists. split; vm_compute; reflexivity.
Qed.

(** C2, amended.  A request whose body has no query, or the empty
    string as query, is answered with status 400 as soon as
    [initVectorStore] has returned: nothing is called after the body is
    read, so no embedding call is made for the query; when the store is
    already there the request makes no network call at all. *)
Theorem POST_missing_query (env : Route.Env) (req : Route.Request)
        (w : Route.World) (body : Route.Body) :
  Route.json req = Route.Ok body ->
  Route.body_query body = None \/ Route.body_query body = Some EmptyString ->
  (forall store w1,
      Route.initVectorStore env w = (Route.Ok store, w1) ->
      Route.POST env req w =
        (Route.Ok (Route.PlainResponse "Missing query" 400),
         Route.mkWorld (Some store) (Route.log w1 ++ [Route.EvReadBody]))) /\
  (forall store,
      Route.vectorStore w = Some store ->
      Route.POST env req w =
        (Route.Ok (Route.PlainResponse "Missing query" 400),
         Route.mkWorld (Some store) (Route.log w ++ [Route.EvReadBody])) /\
      filter Route.is_network_call (Route.log w ++ [Route.EvReadBody])
        = filter Route.is_network_call (Route.log w)).
Proof.
  intros Hj Hq.
  assert (H1 : forall store w1,
             Route.initVectorStore env w = (Route.Ok store, w1) ->
             Route.POST env req w =
               (Route.Ok (Route.PlainResponse "Missing query" 400),
                Route.mkWorld (Some store)
                              (Route.log w1 ++ [Route.EvReadBody]))).
  { intros store w1 Hi.
    rewrite (POST_after_init env req w w1 store Hi). cbv zeta.
    rewrite Hj, (init_store env w w1 store Hi).
    destruct Hq as [-> | ->]; reflexivity. }
  split; [exact H1|].
  intros store Hs. split.
  - apply H1. now apply init_warm.
  - rewrite filter_app. cbn [filter Route.is_network_call].
    apply app_nil_r.
Qed.

Lemma POST_missing_query_witness :
  (forall store w1,
      Route.initVectorStore Sample.env Sample.warm = (Route.Ok store, w1) ->
      Route.POST Sample.env (Sample.request (Some "")) Sample.warm =
        (Route.Ok (Route.PlainResponse "Missing query" 400),
         Route.mkWorld (Some store) (Route.log w1 ++ [Route.EvReadBody]))) /\
  (forall store,
      Route.vectorStore Sample.warm = Some store ->
      Route.POST Sample.env (Sample.request (Some "")) Sample.warm =
        (Route.Ok (Route.PlainResponse "Missing query" 400),
         Route.mkWorld (Some store)
                       (Route.log Sample.warm ++ [Route.EvReadBody])) /\
      filter Route.is_network_call
             (Route.log Sample.warm ++ [Route.EvReadBody])
        = filter Route.is_network_call (Route.log Sample.warm)).
Proof.
  apply (POST_missing_query Sample.env (Sample.request (Some ""))
           Sample.warm (Route.mkBody (Some ""))).
  - reflexivity.
  - right. reflexivity.
Defined.

(** C3.  An indexing pass that starts with the singleton empty either
    fails and leaves it empty, or publishes a store that holds every
    chunk of the corpus, each once and in order.  After a failure the
    next call runs a pass of its own: with the corpus readable and the
    embedding service up it publishes the full index. *)
Theorem indexing_atomic (env : Route.Env) (w w' : Route.World)
        (r : Route.Result Route.MemoryVectorStore) :
  Route.vectorStore w = None ->
  Route.initVectorStore env w = (r, w') ->
  match r with
  | Route.Ok store =>
      Route.vectorStore w' = Some store /\
      exists splits,
        Route.corpus env = Route.Ok splits /\
        map VectorIndex.entry_chunk (Route.memoryVectors store) = splits
  | Route.Err _ =>
      Route.vectorStore w' = None /\
      forall env2 splits,
        Route.corpus env2 = Route.Ok splits ->
        Route.embedder_up env2 ->
        exists store w'',
          Route.initVectorStore env2 w' = (Route.Ok store, w'') /\
          Route.vectorStore w'' = Some store /\
          map VectorIndex.entry_chunk (Route.memoryVectors store) = splits
  end.
Proof.
  intros Hc H. pose proof (init_cold env w w' r Hc H) as Hr.
  destruct r as [store|e].
  - destruct Hr as (Hv & Hs & _). split; assumption.
  - split; [exact Hr|].
    intros env2 splits Hcorp Hup.
    destruct (init_up env2 w' splits Hr Hcorp Hup) as (store & w'' & Hi).
    exists store, w''. split; [exact Hi|].
    destruct (init_cold env2 w' w'' (Route.Ok store) Hr Hi)
      as (Hv & (splits' & Hc' & Hm) & _).
    split; [exact Hv|]. congruence.
Qed.

Lemma sample_embedder_up : Route.embedder_up Sample.env.
Proof.
  intros texts. exists (map Sample.toy_embedding texts).
  split; [reflexivity | apply length_map].
Qed.

Lemma indexing_atomic_witness :
  Route.vectorStore Sample.after_failed = None /\
  exists store w'',
    Route.initVectorStore Sample.env Sample.after_failed
      = (Route.Ok store, w'') /\
    Route.vectorStore w'' = Some store /\
    map VectorIndex.entry_chunk (Route.memoryVectors store)
      = [Sample.cats_chunk; Sample.dogs_chunk].
Proof.
  destruct (indexing_atomic Sample.env_down Sample.cold Sample.after_failed
              (Route.Err (Route.EmbeddingServiceError "503")))
    as [Hnone Hretry].
  - reflexivity.
  - vm_compute. reflexivity.
  - split; [exact Hnone|].
    apply (Hretry Sample.env).
    + vm_compute. reflexivity.
    + exact sample_embedder_up.
Defined.

Lemma filter_none {A} (p : A -> bool) (l : list A) :
  (forall x, In x l -> p x = false) -> filter p l = [].
Proof.
  induction l as [|a l IH]; intros H; [reflexivity|].
  cbn [filter]. rewrite (H a (or_introl eq_refl)).
  apply IH. intros x Hx. apply H. now right.
Qed.

Lemma query_nil (similarity : VectorIndex.Embedding ->
                              VectorIndex.Embedding -> Q)
      (v : VectorIndex.Embedding) (k : nat) :
  VectorIndex.query similarity v k [] = [].
Proof. unfold VectorIndex.query. cbn [map VectorIndex.rank]. apply firstn_nil. Qed.

(** C7.  [query] on the empty index returns the empty sequence for every
    embedding and every [k]; it is a total function, there is no error
    for it to raise.  A corpus directory without a [.pdf] file gives
    such an index: the pass succeeds without an embedding call and
    publishes a store with no entries, and a later request whose query
    text the service embeds is answered with a closed stream of no
    events. *)
Theorem empty_index_query (env : Route.Env) (w : Route.World)
        (files : list string) :
  Route.vectorStore w = None ->
  Route.readdirSync env (Route.cwd env ++ "/public/cv") = Route.Ok files ->
  (forall file, In file files -> Route.endsWith ".pdf" file = false) ->
  (forall similarity v k, VectorIndex.query similarity v k [] = []) /\
  exists w',
    Route.initVectorStore env w = (Route.Ok (Route.mkStore []), w') /\
    Route.vectorStore w' = Some (Route.mkStore []) /\
    filter Route.is_network_call (Route.log w')
      = filter Route.is_network_call (Route.log w) /\
    forall c q v,
      Route.remote_embed env [String c q] = Route.UpOk [v] ->
      Route.POST env (Route.mkRequest (Route.Ok (Route.mkBody (Some (String c q))))) w'
        = (Route.Ok (Route.StreamResponse (Route.mkController [] true)
                       Route.sse_headers),
           Route.mkWorld (Some (Route.mkStore []))
             (Route.log w' ++ [Route.EvReadBody; Route.EvEmbed [String c q]])).
Proof.
  intros Hc Hdir Hnone. split; [exact query_nil|].
  assert (Hi : Route.initVectorStore env w =
               (Route.Ok (Route.mkStore []),
                Route.mkWorld (Some (Route.mkStore []))
                  (Route.log w ++
                   [Route.EvReadDir (Route.cwd env ++ "/public/cv")]))).
  { unfold Route.initVectorStore. rewrite Hc.
    cbv beta iota zeta
        delta [Route.bind Route.record Route.lift Route.load_all
               Route.publish Route.ret].
    rewrite Hdir, (filter_none _ _ Hnone).
    cbn [map Route.collect List.concat Route.vectorStore Route.log].
    unfold Route.splitDocuments. cbn [flat_map].
    unfold Route.addDocuments, Route.embed, Route.batches.
    cbn [map List.length Route.batches_fuel Route.embed_batches].
    cbv beta iota zeta delta [Route.bind Route.ret].
    cbn [Route.vectorStore Route.log Route.entries combine map
         VectorIndex.add Route.memoryVectors app].
    rewrite app_nil_r. reflexivity. }
  eexists. split; [exact Hi|]. cbn [Route.vectorStore Route.log].
  split; [reflexivity|]. split.
  - rewrite filter_app. cbn [filter Route.is_network_call].
    apply app_nil_r.
  - intros c q v Hv.
    erewrite POST_after_init by (apply init_warm; reflexivity).
    cbn [Route.json Route.body_query Route.vectorStore Route.log].
    unfold Route.similaritySearch, Route.embed_batch.
    cbv beta iota zeta
        delta [Route.bind Route.record Route.lift Route.ret Route.throw].
    rewrite Hv. cbn [List.length Nat.eqb Route.memoryVectors
                     Route.vectorStore Route.log].
    rewrite query_nil. cbn [map]. rewrite start_fresh. cbn [map].
    rewrite <- app_assoc. reflexivity.
Qed.

Lemma empty_index_query_witness :
  (forall similarity v k, VectorIndex.query similarity v k [] = []) /\
  exists w',
    Route.initVectorStore Sample.env_no_pdf Sample.cold
      = (Route.Ok (Route.mkStore []), w') /\
    Route.vectorStore w' = Some (Route.mkStore []) /\
    filter Route.is_network_call (Route.log w')
      = filter Route.is_network_call (Route.log Sample.cold) /\
    forall c q v,
      Route.remote_embed Sample.env_no_pdf [String c q] = Route.UpOk [v] ->
      Route.POST Sample.env_no_pdf
        (Route.mkRequest (Route.Ok (Route.mkBody (Some (String c q))))) w'
        = (Route.Ok (Route.StreamResponse (Route.mkController [] true)
                       Route.sse_headers),
           Route.mkWorld (Some (Route.mkStore []))
             (Route.log w' ++ [Route.EvReadBody; Route.EvEmbed [String c q]])).
Proof.
  apply (empty_index_query Sample.env_no_pdf Sample.cold
           ["notes.txt"; "cv.docx"]).
  - reflexivity.
  - reflexivity.
  - intros file [<-|[<-|[]]]; reflexivity.
Defined.

(** ** Interleaved requests *)

(** A call that is resumed four times with nothing in between does what
    [initVectorStore] does. *)
Lemma run_alone (env : Route.Env) (w : Route.World) :
  EventLoop.run env [0; 0; 0; 0] [EventLoop.Called] w =
    ([EventLoop.outcome (fst (Route.initVectorStore env w))],
     snd (Route.initVectorStore env w)).
Proof.
  unfold Route.initVectorStore.
  cbn [EventLoop.run nth_error EventLoop.step].
  destruct (Route.vectorStore w) as [store|] eqn:Hv.
  - cbn [EventLoop.set_nth EventLoop.run nth_error EventLoop.step].
    reflexivity.
  - cbv beta iota zeta
        delta [Route.bind Route.record Route.lift Route.load_all
               Route.publish Route.ret EventLoop.settle].
    cbn [Route.vectorStore Route.log].
    destruct (Route.readdirSync env (Route.cwd env ++ "/public/cv"))
      as [files|e]; cbn [EventLoop.set_nth EventLoop.run nth_error
                         EventLoop.step EventLoop.settle fst snd
                         EventLoop.outcome]; [|reflexivity].
    cbv beta iota zeta
        delta [Route.bind Route.record Route.lift Route.load_all
               Route.publish Route.ret EventLoop.settle].
    cbn [Route.vectorStore Route.log].
    match goal with
    | |- context [Route.collect ?x] =>
        destruct (Route.collect x) as [docs|e]
    end; cbn [EventLoop.set_nth EventLoop.run nth_error
              EventLoop.step EventLoop.settle fst snd
              EventLoop.outcome]; [|reflexivity].
    cbv beta iota zeta
        delta [Route.bind Route.record Route.lift Route.load_all
               Route.publish Route.ret EventLoop.settle].
    match goal with
    | |- context [Route.addDocuments env ?d ?s ?w1] =>
        destruct (Route.addDocuments env d s w1) as [[store|e] w2]
    end; reflexivity.
Qed.

(** *** Whatever the interleaving, a published index is whole *)

Section Interleavings.
Import Chunker VectorIndex Route EventLoop.

Variable env : Env.

Local Abbreviation store_ok w :=
  (forall store, vectorStore w = Some store -> complete env store).

Lemma step_ok (t t' : Task) (w w' : World) :
  task_ok env t -> store_ok w ->
  step env t w = (t', w') ->
  task_ok env t' /\ store_ok w'.
Proof.
  intros Ht Hw H. destruct t as [|loaders|allDocs|store splits|store|e];
    cbn [step] in H.
  - destruct (vectorStore w) as [store|] eqn:Hv.
    + injection H as <- <-. split.
      * cbn [task_ok]. now apply Hw.
      * intros s Hs. rewrite Hv in Hs. exact (Hw s Hs).
    + cbv beta iota zeta delta [bind record lift ret settle] in H.
      cbn [vectorStore log] in H.
      destruct (readdirSync env (cwd env ++ "/public/cv")) as [files|e]
        eqn:Hdir; injection H as <- <-; cbn [vectorStore].
      * split; [|intros store; rewrite Hv; discriminate].
        cbn [task_ok]. exists files. split; [exact Hdir | reflexivity].
      * split; [exact I | intros store; rewrite Hv; discriminate].
  - cbv beta iota zeta delta [bind lift ret settle] in H.
    destruct Ht as (files & Hdir & ->).
    match type of H with
    | context [collect ?x] => destruct (collect x) as [docs|e] eqn:Hcol
    end; injection H as <- <-; (split; [|exact Hw]); [|exact I].
    cbn [task_ok]. unfold corpus. cbv zeta. rewrite Hdir. cbn [bindR].
    rewrite Hcol. reflexivity.
  - injection H as <- <-. split; [|exact Hw].
    cbn [task_ok] in *. split; [reflexivity | exact Ht].
  - cbv beta iota zeta delta [bind publish ret settle] in H.
    destruct Ht as [Hempty Hcorp].
    destruct (addDocuments env splits store w) as [[store'|e] w1] eqn:Ha;
      injection H as <- <-.
    + destruct (addDocuments_ok env _ _ _ _ _ Ha) as (vs & Hlen & Hm).
      rewrite Hempty in Hm. cbn [app] in Hm.
      assert (Hc : complete env store').
      { unfold complete. rewrite Hm, entries_chunks by exact Hlen.
        exact Hcorp. }
      split; [exact Hc|]. cbn [vectorStore].
      intros s [= <-]. exact Hc.
    + split; [exact I|].
      destruct (frames_addDocuments env _ _ _ _ _ Ha) as [Hv _].
      intros s Hs. apply Hw. congruence.
  - injection H as <- <-. split; assumption.
  - injection H as <- <-. split; assumption.
Qed.

Lemma set_nth_Forall {A} (P : A -> Prop) (a : A) (l : list A) :
  forall i, P a -> Forall P l -> Forall P (set_nth i a l).
Proof.
  induction l as [|x l IH]; intros i Ha Hl;
    [destruct i; constructor|].
  apply Forall_cons_iff in Hl. destruct Hl as [Hx Hl].
  destruct i as [|i]; cbn [set_nth]; constructor; auto.
Qed.

Lemma run_ok (schedule : list nat) :
  forall tasks w tasks' w',
    Forall (task_ok env) tasks -> store_ok w ->
    run env schedule tasks w = (tasks', w') ->
    Forall (task_ok env) tasks' /\ store_ok w'.
Proof.
  induction schedule as [|i schedule IH]; intros tasks w tasks' w' Ht Hw H.
  - injection H as <- <-. split; assumption.
  - cbn [run] in H. destruct (nth_error tasks i) as [t|] eqn:Hn.
    + destruct (step env t w) as [t1 w1] eqn:Hs.
      assert (Hok : task_ok env t).
      { rewrite Forall_forall in Ht. apply Ht.
        eapply nth_error_In; eassumption. }
      destruct (step_ok t t1 w w1 Hok Hw Hs) as [Ht1 Hw1].
      eapply IH; [|exact Hw1|exact H].
      now apply set_nth_Forall.
    + eapply IH; eassumption.
Qed.

(** X5.  Any number of requests on a cold state, resumed in any order:
    a store found in the singleton at any moment holds the whole
    corpus. *)
Lemma published_index_complete (schedule : list nat) (n : nat)
      (w w' : World) (tasks' : list Task) (store : MemoryVectorStore) :
  vectorStore w = None ->
  run env schedule (repeat Called n) w = (tasks', w') ->
  vectorStore w' = Some store ->
  complete env store.
Proof.
  intros Hc H Hs.
  destruct (run_ok schedule (repeat Called n) w tasks' w') as [_ Hw'].
  - apply Forall_forall. intros t Ht.
    apply repeat_spec in Ht. subst t. exact I.
  - intros s. rewrite Hc. discriminate.
  - exact H.
  - now apply Hw'.
Qed.

End Interleavings.

(** X7.  Two calls that both start before either has finished both
    find the singleton empty and both list the directory. *)
Lemma overlapping_calls_both_start (env : Route.Env) (w : Route.World)
      (files : list string) :
  Route.vectorStore w = None ->
  Route.readdirSync env (Route.cwd env ++ "/public/cv") = Route.Ok files ->
  exists loaders w',
    EventLoop.run env [0; 1] [EventLoop.Called; EventLoop.Called] w =
      ([EventLoop.AwaitLoad loaders; EventLoop.AwaitLoad loaders], w') /\
    Route.vectorStore w' = None /\
    EventLoop.indexing_passes w' = EventLoop.indexing_passes w + 2.
Proof.
  intros Hv Hdir.
  cbn [EventLoop.run nth_error EventLoop.step]. rewrite Hv.
  cbv beta iota zeta
      delta [Route.bind Route.record Route.lift Route.ret EventLoop.settle].
  cbn [Route.vectorStore Route.log]. rewrite Hdir.
  cbn [EventLoop.set_nth EventLoop.run nth_error EventLoop.step
       Route.vectorStore Route.log].
  rewrite Hv.
  cbv beta iota zeta
      delta [Route.bind Route.record Route.lift Route.ret EventLoop.settle].
  cbn [Route.vectorStore Route.log]. rewrite Hdir.
  cbn [EventLoop.set_nth].
  eexists _, _. split; [reflexivity|]. split; [reflexivity|].
  unfold EventLoop.indexing_passes. cbn [Route.log].
  rewrite !filter_app, !length_app. cbn [filter EventLoop.is_pass_start].
  assert (E : forall l, filter EventLoop.is_pass_start
                               (map Route.EvLoadPdf l) = []).
  { induction l as [|x l IH]; [reflexivity | exact IH]. }
  rewrite !E. cbn [List.length]. lia.
Qed.

(** C1, on the code.  Two requests on a cold state, the second arriving
    while the first is suspended at line 21: each runs the whole pass
    (two directory listings, two rounds of embedding calls), both return
    a store, and the store left in the singleton has one entry per chunk
    of the corpus.  Served one after the other, the same two requests
    cost one pass. *)
Lemma overlapping_requests_index_twice :
  (exists w',
      EventLoop.run Sample.env [0; 1; 0; 0; 0; 1; 1; 1]
                    [EventLoop.Called; EventLoop.Called] Sample.cold
        = ([EventLoop.Returned Sample.indexed;
            EventLoop.Returned Sample.indexed], w') /\
      EventLoop.indexing_passes w' = 2 /\
      filter Route.is_network_call (Route.log w')
        = [Route.EvEmbed [Chunker.text Sample.cats; Chunker.text Sample.dogs];
           Route.EvEmbed [Chunker.text Sample.cats; Chunker.text Sample.dogs]] /\
      Route.vectorStore w' = Some Sample.indexed /\
      Route.corpus Sample.env
        = Route.Ok (map VectorIndex.entry_chunk
                        (Route.memoryVectors Sample.indexed))) /\
  (exists w',
      EventLoop.run Sample.env [0; 0; 0; 0; 1]
                    [EventLoop.Called; EventLoop.Called] Sample.cold
        = ([EventLoop.Returned Sample.indexed;
            EventLoop.Returned Sample.indexed], w') /\
      EventLoop.indexing_passes w' = 1).
Proof.
  split.
  - eexists. split; [vm_compute; reflexivity|].
    repeat split; vm_compute; reflexivity.
  - eexists. split; vm_compute; reflexivity.
Qed.

(* ===================================================================== *)
(** * Part III: the rest of the route and its callers                     *)
(* ===================================================================== *)

(** ** Strings *)

Lemma string_app_nil_r (s : string) : (s ++ EmptyString)%string = s.
Proof. induction s as [|c s IH]; cbn; now rewrite ?IH. Qed.

Lemma string_app_assoc (a b c : string) :
  ((a ++ b) ++ c)%string = (a ++ (b ++ c))%string.
Proof. induction a as [|x a IH]; cbn; now rewrite ?IH. Qed.

Lemma prefix_app (a b : string) : prefix a (a ++ b) = true.
Proof.
  induction a as [|x a IH]; [destruct b; reflexivity|].
  cbn. destruct (ascii_dec x x) as [_|N]; [exact IH | now destruct N].
Qed.

Lemma substring_after (a b : string) :
  substring (String.length a) (String.length (a ++ b) - String.length a)
            (a ++ b) = b.
Proof.
  induction a as [|x a IH].
  - cbn [String.length String.append]. rewrite Nat.sub_0_r.
    apply substring_full.
  - exact IH.
Qed.

(** ** The search page: reading the stream *)

Section PageFacts.
Import Chunker VectorIndex Route SearchPage.

Variable env : Env.
Variable b : Browser.

Local Abbreviation SEP :=
  (String "010"%char (String "010"%char EmptyString)).
Local Abbreviation data r := ("data: " ++ JSON_stringify env r)%string.

Lemma no_newline_app (x y : string) :
  no_newline (x ++ y) = no_newline x && no_newline y.
Proof.
  induction x as [|c x IH]; [reflexivity|].
  cbn [String.append no_newline]. now rewrite IH, andb_assoc.
Qed.

Lemma prefix_SEP_other (c : ascii) (s : string) :
  Ascii.eqb c "010"%char = false -> prefix SEP (String c s) = false.
Proof.
  intros H. cbn [prefix].
  destruct (ascii_dec "010" c) as [E|_]; [|reflexivity].
  subst c. rewrite Ascii.eqb_refl in H. discriminate.
Qed.

(** A piece without a newline is read up to the separator after it. *)
Lemma split_go_piece (a : string) :
  no_newline a = true ->
  forall cur rest,
    split_go SEP 0 cur (a ++ SEP ++ rest)
      = (cur ++ a)%string :: split_go SEP 0 EmptyString rest.
Proof.
  induction a as [|c a IH]; intros Ha cur rest.
  - cbn [String.append split_go].
    rewrite (prefix_app SEP rest : prefix SEP (String "010" (String "010" rest)) = true).
    cbn [String.length Nat.sub split_go].
    now rewrite string_app_nil_r.
  - cbn [no_newline] in Ha. apply andb_true_iff in Ha.
    destruct Ha as [Hc Ha]. apply negb_true_iff in Hc.
    cbn [String.append split_go] in *.
    rewrite (prefix_SEP_other c _ Hc), (IH Ha), string_app_assoc.
    reflexivity.
Qed.

Lemma split_go_last (a : string) :
  no_newline a = true ->
  forall cur, split_go SEP 0 cur a = [(cur ++ a)%string].
Proof.
  induction a as [|c a IH]; intros Ha cur.
  - cbn [split_go]. now rewrite string_app_nil_r.
  - cbn [no_newline] in Ha. apply andb_true_iff in Ha.
    destruct Ha as [Hc Ha]. apply negb_true_iff in Hc.
    cbn [split_go].
    rewrite (prefix_SEP_other c _ Hc), (IH Ha), string_app_assoc.
    reflexivity.
Qed.

Lemma joined_app (xs ys : list string) :
  joined (xs ++ ys) = (joined xs ++ joined ys)%string.
Proof.
  induction xs as [|x xs IH]; [reflexivity|].
  cbn [app joined fold_right] in *. fold (joined (xs ++ ys)).
  fold (joined xs). now rewrite IH, string_app_assoc.
Qed.

(** The events written for [rs], followed by [rest], split into one
    line per event and the lines of [rest]. *)
Lemma split_go_events (rs : list Chunk) :
  (forall r, In r rs -> no_newline (JSON_stringify env r) = true) ->
  forall rest,
    split_go SEP 0 EmptyString (joined (map (sse_event env) rs) ++ rest)
      = map (fun r => data r) rs ++ split_go SEP 0 EmptyString rest.
Proof.
  induction rs as [|r rs IH]; intros Hn rest; [reflexivity|].
  cbn [map joined fold_right app]. fold (joined (map (sse_event env) rs)).
  replace ((sse_event env r ++ joined (map (sse_event env) rs)) ++ rest)%string
    with ((data r) ++ SEP ++ joined (map (sse_event env) rs) ++ rest)%string
    by (unfold sse_event, LF; now rewrite !string_app_assoc).
  rewrite split_go_piece.
  - cbn [String.append]. f_equal. apply IH.
    intros x Hx. apply Hn. now right.
  - rewrite no_newline_app.
    replace (no_newline "data: ") with true by reflexivity.
    cbn [andb]. apply Hn. now left.
Qed.

Lemma on_line_data (acc : list Chunk) (j : string) :
  on_line b acc ("data: " ++ j) =
    match JSON_parse b j with
    | Some jsonData => acc ++ [jsonData]
    | None => acc
    end.
Proof.
  unfold on_line. rewrite prefix_app.
  assert (E : substring 6 (String.length ("data: " ++ j) - 6) ("data: " ++ j)
              = j) by exact (substring_after "data: " j).
  now rewrite E.
Qed.

Lemma on_lines_data (rs : list Chunk) :
  (forall r, In r rs -> JSON_parse b (JSON_stringify env r) = Some r) ->
  forall acc,
    fold_left (on_line b) (map (fun r => data r) rs) acc = acc ++ rs.
Proof.
  induction rs as [|r rs IH]; intros Hp acc; cbn [map fold_left].
  - now rewrite app_nil_r.
  - rewrite on_line_data, (Hp r (or_introl eq_refl)), IH.
    + now rewrite <- app_assoc.
    + intros x Hx. apply Hp. now right.
Qed.

(** One read that holds whole events. *)
Lemma on_chunk_events (rs acc : list Chunk) :
  (forall r, In r rs ->
             no_newline (JSON_stringify env r) = true /\
             JSON_parse b (JSON_stringify env r) = Some r) ->
  on_chunk b acc (joined (map (sse_event env) rs)) = acc ++ rs.
Proof.
  intros H. unfold on_chunk, split.
  change (LF ++ LF)%string with SEP.
  rewrite <- (string_app_nil_r (joined (map (sse_event env) rs))).
  rewrite split_go_events by (intros r Hr; apply H; exact Hr).
  rewrite fold_left_app, on_lines_data
    by (intros r Hr; apply H; exact Hr).
  reflexivity.
Qed.

Lemma read_whole_events (groups : list (list Chunk)) :
  (forall r, In r (List.concat groups) ->
             no_newline (JSON_stringify env r) = true /\
             JSON_parse b (JSON_stringify env r) = Some r) ->
  forall acc,
    fold_left (on_chunk b)
              (map (fun g => joined (map (sse_event env) g)) groups) acc
      = acc ++ List.concat groups.
Proof.
  induction groups as [|g groups IH]; intros H acc;
    cbn [map fold_left List.concat].
  - now rewrite app_nil_r.
  - rewrite on_chunk_events, IH.
    + now rewrite <- app_assoc.
    + intros r Hr. apply H. cbn [List.concat]. apply in_or_app. now right.
    + intros r Hr. apply H. cbn [List.concat]. apply in_or_app. now left.
Qed.

End PageFacts.

(** X8.  Reading the route's stream gives back what was written: when
    every read holds whole events (one, several or none), the page
    collects exactly the streamed results, in order and with
    duplicates, provided the payloads are free of newlines and parse
    back. *)
Theorem reads_of_whole_events (env : Route.Env) (b : SearchPage.Browser)
        (groups : list (list Chunker.Chunk)) :
  (forall r, In r (List.concat groups) ->
             SearchPage.no_newline (Route.JSON_stringify env r) = true /\
             SearchPage.JSON_parse b (Route.JSON_stringify env r) = Some r) ->
  SearchPage.read_stream b
    (map (fun g => SearchPage.joined (map (Route.sse_event env) g)) groups)
    = List.concat groups.
Proof.
  intros H. unfold SearchPage.read_stream.
  now rewrite (read_whole_events env b groups H).
Qed.

Lemma reads_of_whole_events_witness :
  SearchPage.read_stream PageSample.browser
    (map (fun g => SearchPage.joined (map (Route.sse_event Sample.env) g))
         [[Sample.dogs_chunk]; []; [Sample.cats_chunk; Sample.dogs_chunk]])
    = List.concat
        [[Sample.dogs_chunk]; []; [Sample.cats_chunk; Sample.dogs_chunk]].
Proof.
  apply (reads_of_whole_events Sample.env PageSample.browser).
  intros r [<-|[<-|[<-|[]]]]; split; reflexivity.
Defined.

(** X9.  The page keeps nothing from one read to the next: when an
    event arrives cut in two, the first part failing to parse and the
    second not starting with [data: ], that result is dropped and the
    results around it are kept. *)
Theorem cut_event_is_lost (env : Route.Env) (b : SearchPage.Browser)
        (rs1 rs2 : list Chunker.Chunk) (r : Chunker.Chunk)
        (pre post : string) :
  Route.JSON_stringify env r = (pre ++ post)%string ->
  (forall x, In x (rs1 ++ r :: rs2) ->
             SearchPage.no_newline (Route.JSON_stringify env x) = true /\
             SearchPage.JSON_parse b (Route.JSON_stringify env x) = Some x) ->
  SearchPage.JSON_parse b pre = None ->
  prefix "data: " post = false ->
  let read1 :=
    (SearchPage.joined (map (Route.sse_event env) rs1) ++ "data: " ++ pre)%string in
  let read2 :=
    (post ++ Route.LF ++ Route.LF
       ++ SearchPage.joined (map (Route.sse_event env) rs2))%string in
  (read1 ++ read2)%string
    = SearchPage.joined (map (Route.sse_event env) (rs1 ++ r :: rs2)) /\
  SearchPage.read_stream b [read1; read2] = rs1 ++ rs2.
Proof.
  intros Hr H Hpre Hpost read1 read2. subst read1 read2.
  assert (Hnl : SearchPage.no_newline pre = true /\
                SearchPage.no_newline post = true).
  { destruct (H r) as [Hn _]; [apply in_or_app; right; now left|].
    rewrite Hr, no_newline_app in Hn. now apply andb_true_iff in Hn. }
  destruct Hnl as [Hn1 Hn2].
  assert (H1 : forall x, In x rs1 ->
               SearchPage.no_newline (Route.JSON_stringify env x) = true /\
               SearchPage.JSON_parse b (Route.JSON_stringify env x) = Some x).
  { intros x Hx. apply H. apply in_or_app. now left. }
  assert (H2 : forall x, In x rs2 ->
               SearchPage.no_newline (Route.JSON_stringify env x) = true /\
               SearchPage.JSON_parse b (Route.JSON_stringify env x) = Some x).
  { intros x Hx. apply H. apply in_or_app. right. now right. }
  split.
  - rewrite map_app, joined_app. cbn [map SearchPage.joined fold_right].
    fold (SearchPage.joined (map (Route.sse_event env) rs2)).
    change (Route.sse_event env r)
      with ("data: " ++ Route.JSON_stringify env r
              ++ Route.LF ++ Route.LF)%string.
    rewrite Hr.
    now rewrite !string_app_assoc.
  - assert (E1 : SearchPage.on_chunk b []
                   (SearchPage.joined (map (Route.sse_event env) rs1)
                      ++ "data: " ++ pre) = rs1).
    { unfold SearchPage.on_chunk, SearchPage.split.
      change (Route.LF ++ Route.LF)%string
        with (String "010"%char (String "010"%char EmptyString)).
      rewrite (split_go_events env rs1 (fun x Hx => proj1 (H1 x Hx))).
      rewrite (split_go_last ("data: " ++ pre)%string)
        by (rewrite no_newline_app; exact Hn1).
      rewrite fold_left_app,
        (on_lines_data env b rs1 (fun x Hx => proj2 (H1 x Hx))).
      cbn [fold_left app].
      change (EmptyString ++ "data: " ++ pre)%string
        with ("data: " ++ pre)%string.
      now rewrite (on_line_data b rs1 pre), Hpre. }
    assert (E2 : SearchPage.on_chunk b rs1
                   (post ++ Route.LF ++ Route.LF
                      ++ SearchPage.joined (map (Route.sse_event env) rs2))
                 = rs1 ++ rs2).
    { unfold SearchPage.on_chunk, SearchPage.split.
      change (Route.LF ++ Route.LF)%string
        with (String "010"%char (String "010"%char EmptyString)).
      change (post ++ Route.LF ++ Route.LF
                ++ SearchPage.joined (map (Route.sse_event env) rs2))%string
        with (post ++ String "010"%char (String "010"%char EmptyString)
                ++ SearchPage.joined (map (Route.sse_event env) rs2))%string.
      rewrite (split_go_piece post Hn2). cbn [String.append fold_left].
      unfold SearchPage.on_line at 2. rewrite Hpost.
      rewrite <- (string_app_nil_r
                    (SearchPage.joined (map (Route.sse_event env) rs2))).
      rewrite (split_go_events env rs2 (fun x Hx => proj1 (H2 x Hx))).
      rewrite fold_left_app,
        (on_lines_data env b rs2 (fun x Hx => proj2 (H2 x Hx))).
      reflexivity. }
    unfold SearchPage.read_stream. cbn [fold_left].
    now rewrite E1, E2.
Qed.

Lemma cut_event_is_lost_witness :
  ((SearchPage.joined (map (Route.sse_event Sample.env) [Sample.cats_chunk])
      ++ "data: " ++ PageSample.cut_before)
   ++ (PageSample.cut_after ++ Route.LF ++ Route.LF
         ++ SearchPage.joined (map (Route.sse_event Sample.env) [])))%string
    = SearchPage.joined
        (map (Route.sse_event Sample.env)
             ([Sample.cats_chunk] ++ Sample.dogs_chunk :: [])) /\
  SearchPage.read_stream PageSample.browser
    [(SearchPage.joined (map (Route.sse_event Sample.env) [Sample.cats_chunk])
        ++ "data: " ++ PageSample.cut_before)%string;
     (PageSample.cut_after ++ Route.LF ++ Route.LF
        ++ SearchPage.joined (map (Route.sse_event Sample.env) []))%string]
    = [Sample.cats_chunk] ++ [].
Proof.
  apply (cut_event_is_lost Sample.env PageSample.browser
           [Sample.cats_chunk] [] Sample.dogs_chunk
           PageSample.cut_before PageSample.cut_after).
  - reflexivity.
  - intros x [<-|[<-|[]]]; split; reflexivity.
  - reflexivity.
  - reflexivity.
Defined.




(** ** The route: what a pass and a request leave in the trace *)

Section TraceFacts.
Import Chunker VectorIndex Route.

Variable env : Env.

Local Abbreviation cvPath := (cwd env ++ "/public/cv")%string.
Local Abbreviation loaders_of files :=
  (map (fun file => (cvPath ++ "/" ++ file)%string)
       (filter (endsWith ".pdf") files)).

Lemma embed_batch_trace (batch : list string) (w w' : World)
      (r : Result (list Embedding)) :
  embed_batch env batch w = (r, w') ->
  w' = {| vectorStore := vectorStore w; log := log w ++ [EvEmbed batch] |}.
Proof.
  unfold embed_batch. cbv beta iota zeta delta [bind record ret throw].
  destruct (remote_embed env batch) as [vs|status].
  - destruct (List.length vs =? List.length batch); now intros [= _ <-].
  - now intros [= _ <-].
Qed.

Lemma embed_batches_trace (bs : list (list string)) :
  forall w w' r,
    embed_batches env bs w = (r, w') ->
    vectorStore w' = vectorStore w /\
    exists sent, log w' = log w ++ map EvEmbed sent.
Proof.
  induction bs as [|b bs IH]; intros w w' r H.
  - injection H as _ <-. split; [reflexivity|]. exists [].
    now rewrite app_nil_r.
  - cbn [embed_batches] in H. unfold bind at 1 in H.
    destruct (embed_batch env b w) as [[vs|e] w1] eqn:E;
      apply embed_batch_trace in E; subst w1.
    + unfold bind at 1 in H.
      match type of H with
      | context [embed_batches env bs ?w1] =>
          destruct (embed_batches env bs w1) as [[rest|e] w2] eqn:E2;
            apply IH in E2; destruct E2 as [Hv [sent Hl]]
      end; injection H as _ <-; (split; [exact Hv|]);
        exists (b :: sent); rewrite Hl; cbn [log map];
        now rewrite <- app_assoc.
    + injection H as _ <-. split; [reflexivity|]. now exists [b].
Qed.

(** The calls of a pass, in order: the listing, one load for each
    listed file whose name ends in [.pdf], then embedding requests. *)
Lemma init_cold_trace (w w' : World) (r : Result MemoryVectorStore)
      (files : list string) :
  vectorStore w = None ->
  readdirSync env cvPath = Ok files ->
  initVectorStore env w = (r, w') ->
  exists sent,
    log w' = log w ++ EvReadDir cvPath
                   :: map EvLoadPdf (loaders_of files) ++ map EvEmbed sent /\
    ((forall docs,
         collect (map (pdf_load env) (loaders_of files)) <> Ok docs) ->
     sent = [] /\ vectorStore w' = None /\ exists e, r = Err e).
Proof.
  intros Hc Hdir H. unfold initVectorStore in H. rewrite Hc in H.
  cbv beta iota zeta delta [bind record lift load_all publish ret] in H.
  cbn [vectorStore log] in H. rewrite Hdir in H.
  match type of H with
  | context [collect ?x] => destruct (collect x) as [docs|e] eqn:Hcol
  end.
  - unfold addDocuments, embed, bind at 1 in H.
    match type of H with
    | context [embed_batches env ?bs ?w1] =>
        destruct (embed_batches env bs w1) as [[vs|e] w2] eqn:E;
          apply embed_batches_trace in E; destruct E as [Hv [sent Hl]]
    end; cbn [vectorStore log] in Hv, Hl.
    + unfold ret in H. injection H as _ <-. cbn [log].
      exists sent. split.
      * rewrite Hl, <- !app_assoc. reflexivity.
      * intros Hd. now destruct (Hd docs).
    + injection H as _ <-. exists sent. split.
      * rewrite Hl, <- !app_assoc. reflexivity.
      * intros Hd. now destruct (Hd docs).
  - injection H as <- <-. cbn [log vectorStore]. exists []. split.
    + cbn [map]. rewrite app_nil_r, <- app_assoc. reflexivity.
    + intros _. repeat split; [exact Hc|]. now exists e.
Qed.




Lemma similaritySearch_trace (store : MemoryVectorStore) (q : string)
      (k : nat) (w w' : World) (r : Result (list Chunk)) :
  similaritySearch env store q k w = (r, w') ->
  w' = {| vectorStore := vectorStore w; log := log w ++ [EvEmbed [q]] |}.
Proof.
  unfold similaritySearch. unfold bind at 1.
  destruct (embed_batch env [q] w) as [[vs|e] w1] eqn:E;
    apply embed_batch_trace in E; subst w1.
  - destruct vs; now intros [= _ <-].
  - now intros [= _ <-].
Qed.

(** What a request does once [initVectorStore] has returned. *)
Lemma POST_after_init_trace (req : Request) (w w1 w' : World)
      (store : MemoryVectorStore) (r : Result Response) :
  initVectorStore env w = (Ok store, w1) ->
  POST env req w = (r, w') ->
  vectorStore w' = Some store /\
  (log w' = log w1 ++ [EvReadBody] \/
   exists q,
     json req = Ok {| body_query := Some q |} /\ q <> EmptyString /\
     log w' = log w1 ++ [EvReadBody; EvEmbed [q]]).
Proof.
  intros Hi H. pose proof (init_store env w w1 store Hi) as Hs.
  rewrite (POST_after_init env req w w1 store Hi) in H. cbv zeta in H.
  destruct (json req) as [[bq]|e].
  - cbn [body_query] in H. destruct bq as [[|c q]|].
    + injection H as _ <-. cbn [vectorStore log]. auto.
    + unfold bind at 1 in H.
      match type of H with
      | context [similaritySearch env store ?q ?k ?w2] =>
          destruct (similaritySearch env store q k w2) as [[rs|e] w3] eqn:Hq;
            apply similaritySearch_trace in Hq; subst w3
      end.
      * unfold bind, lift, ret in H. rewrite start_fresh in H.
        injection H as _ <-. cbn [vectorStore log]. split; [exact Hs|].
        right. exists (String c q). repeat split; try discriminate.
        now rewrite <- app_assoc.
      * injection H as _ <-. cbn [vectorStore log]. split; [exact Hs|].
        right. exists (String c q). repeat split; try discriminate.
        now rewrite <- app_assoc.
    + injection H as _ <-. cbn [vectorStore log]. auto.
  - injection H as _ <-. cbn [vectorStore log]. auto.
Qed.

Lemma POST_failure_cause (req : Request) (w w1 w' : World)
      (store : MemoryVectorStore) (e : Error) :
  initVectorStore env w = (Ok store, w1) ->
  POST env req w = (Err e, w') ->
  (json req = Err e /\ log w' = log w1 ++ [EvReadBody]) \/
  (exists q,
      json req = Ok {| body_query := Some q |} /\ q <> EmptyString /\
      log w' = log w1 ++ [EvReadBody; EvEmbed [q]] /\
      forall v, remote_embed env [q] <> UpOk [v]).
Proof.
  intros Hi H.
  rewrite (POST_after_init env req w w1 store Hi) in H. cbv zeta in H.
  destruct (json req) as [[bq]|e0].
  - cbn [body_query] in H. destruct bq as [[|c q]|]; try discriminate.
    right. exists (String c q).
    unfold bind at 1 in H.
    match type of H with
    | context [similaritySearch env store ?q ?k ?w2] =>
        destruct (similaritySearch env store q k w2) as [[rs|e1] w3] eqn:Hq
    end.
    + unfold bind, lift, ret in H. rewrite start_fresh in H. discriminate.
    + injection H as <- <-.
      pose proof (similaritySearch_trace _ _ _ _ _ _ Hq) as Hw. subst w3.
      cbn [log]. repeat split; try discriminate.
      * now rewrite <- app_assoc.
      * intros v Hv. unfold similaritySearch, embed_batch in Hq.
        cbv beta iota zeta delta [bind record ret throw] in Hq.
        rewrite Hv in Hq. cbn [List.length Nat.eqb] in Hq. discriminate.
  - injection H as <- <-. left. split; reflexivity.
Qed.

End TraceFacts.

(** X1.  Once a request has been answered, every later request, whatever
    it holds and whatever has become of the corpus directory and of the
    service, leaves the store in place and lists no directory and loads
    no file: it adds to the trace the reading of its body and at most
    one embedding request, for its own query text. *)
Theorem later_requests_reuse_index (env1 env2 : Route.Env)
        (req1 req2 : Route.Request) (w w1 w2 : Route.World)
        (resp : Route.Response) (r : Route.Result Route.Response) :
  Route.POST env1 req1 w = (Route.Ok resp, w1) ->
  Route.POST env2 req2 w1 = (r, w2) ->
  Route.vectorStore w1 <> None /\
  Route.vectorStore w2 = Route.vectorStore w1 /\
  (Route.log w2 = Route.log w1 ++ [Route.EvReadBody] \/
   exists q,
     Route.json req2 = Route.Ok (Route.mkBody (Some q)) /\
     q <> EmptyString /\
     Route.log w2
       = Route.log w1 ++ [Route.EvReadBody; Route.EvEmbed [q]]).
Proof.
  intros H1 H2.
  destruct (Route.initVectorStore env1 w) as [[store|e] w0] eqn:Hi;
    [|rewrite (POST_init_failed env1 req1 w w0 e Hi) in H1; discriminate].
  destruct (POST_after_init_trace env1 req1 w w0 w1 store _ Hi H1)
    as [Hs _].
  destruct (POST_after_init_trace env2 req2 w1 w1 w2 store r
              (init_warm env2 w1 store Hs) H2) as [Hs2 Hl].
  split; [rewrite Hs; discriminate|]. split; [congruence | exact Hl].
Qed.

Lemma later_requests_reuse_index_witness :
  Route.vectorStore Runs.after_400 <> None /\
  Route.vectorStore Runs.after_503 = Route.vectorStore Runs.after_400 /\
  (Route.log Runs.after_503
     = Route.log Runs.after_400 ++ [Route.EvReadBody] \/
   exists q,
     Route.json (Sample.request (Some "dogs"))
       = Route.Ok (Route.mkBody (Some q)) /\
     q <> EmptyString /\
     Route.log Runs.after_503
       = Route.log Runs.after_400
           ++ [Route.EvReadBody; Route.EvEmbed [q]]).
Proof.
  apply (later_requests_reuse_index Sample.env Sample.env_down
           (Sample.request None) (Sample.request (Some "dogs"))
           Sample.cold Runs.after_400 Runs.after_503
           (Route.PlainResponse "Missing query" 400)
           (Route.Err (Route.EmbeddingServiceError "503")));
    vm_compute; reflexivity.
Defined.

(** X2.  For a request whose body has the shape line 47 declares
    (the query absent or a string): a request that fails on an
    initialized store leaves the store as it was.  It fails in one of
    two ways: reading the body failed,
    and nothing else was called; or the query was not empty, one
    embedding request was made for it, and the service did not answer
    with exactly one vector. *)
Theorem failed_request_keeps_index (env : Route.Env) (req : Route.Request)
        (w w' : Route.World) (store : Route.MemoryVectorStore)
        (e : Route.Error) :
  Route.vectorStore w = Some store ->
  Route.POST env req w = (Route.Err e, w') ->
  Route.vectorStore w' = Some store /\
  ((Route.json req = Route.Err e /\
    Route.log w' = Route.log w ++ [Route.EvReadBody]) \/
   (exists q,
       Route.json req = Route.Ok (Route.mkBody (Some q)) /\
       q <> EmptyString /\
       Route.log w' = Route.log w ++ [Route.EvReadBody; Route.EvEmbed [q]] /\
       forall v, Route.remote_embed env [q] <> Route.UpOk [v])).
Proof.
  intros Hs H. pose proof (init_warm env w store Hs) as Hi.
  split.
  - exact (proj1 (POST_after_init_trace env req w w w' store _ Hi H)).
  - exact (POST_failure_cause env req w w w' store e Hi H).
Qed.

Lemma failed_request_keeps_index_witness :
  Route.vectorStore Runs.warm_503 = Some Sample.indexed /\
  ((Route.json (Sample.request (Some "dogs"))
      = Route.Err (Route.EmbeddingServiceError "503") /\
    Route.log Runs.warm_503 = Route.log Sample.warm ++ [Route.EvReadBody]) \/
   (exists q,
       Route.json (Sample.request (Some "dogs"))
         = Route.Ok (Route.mkBody (Some q)) /\
       q <> EmptyString /\
       Route.log Runs.warm_503
         = Route.log Sample.warm
             ++ [Route.EvReadBody; Route.EvEmbed [q]] /\
       forall v, Route.remote_embed Sample.env_down [q] <> Route.UpOk [v])).
Proof.
  apply (failed_request_keeps_index Sample.env_down
           (Sample.request (Some "dogs")) Sample.warm Runs.warm_503).
  - reflexivity.
  - vm_compute. reflexivity.
Defined.

(** X3.  In a pass, a load is started for a path exactly when the path
    is the corpus directory, a slash and a listed file name that ends
    in [.pdf]; no other file of the directory is touched. *)
Theorem pass_loads_only_pdfs (env : Route.Env) (w w' : Route.World)
        (r : Route.Result Route.MemoryVectorStore) (files : list string) :
  Route.vectorStore w = None ->
  Route.readdirSync env (Route.cwd env ++ "/public/cv") = Route.Ok files ->
  Route.initVectorStore env w = (r, w') ->
  forall path,
    In (Route.EvLoadPdf path) (Route.log w') <->
    (In (Route.EvLoadPdf path) (Route.log w) \/
     exists file,
       In file files /\ Route.endsWith ".pdf" file = true /\
       path = ((Route.cwd env ++ "/public/cv") ++ "/" ++ file)%string).
Proof.
  intros Hc Hdir H path.
  destruct (init_cold_trace env w w' r files Hc Hdir H) as (sent & Hl & _).
  rewrite Hl, in_app_iff. cbn [In]. rewrite in_app_iff.
  split.
  - intros [Hin|[Hin|[Hin|Hin]]]; [now left|discriminate| |].
    + right. apply in_map_iff in Hin. destruct Hin as (p & [= ->] & Hp).
      apply in_map_iff in Hp. destruct Hp as (file & <- & Hf).
      apply filter_In in Hf. destruct Hf as [Hf1 Hf2].
      now exists file.
    + apply in_map_iff in Hin. destruct Hin as (x & Hx & _). discriminate.
  - intros [Hin|(file & Hf1 & Hf2 & ->)]; [now left|].
    right. right. left. apply in_map. apply in_map_iff.
    exists file. split; [reflexivity|]. apply filter_In. now split.
Qed.

Lemma pass_loads_only_pdfs_witness :
  In (Route.EvLoadPdf "/app/public/cv/notes.txt") (Route.log Sample.warm) <->
  (In (Route.EvLoadPdf "/app/public/cv/notes.txt") (Route.log Sample.cold) \/
   exists file,
     In file ["a.pdf"; "notes.txt"; "b.pdf"] /\
     Route.endsWith ".pdf" file = true /\
     "/app/public/cv/notes.txt"
       = ((Route.cwd Sample.env ++ "/public/cv") ++ "/" ++ file)%string).
Proof.
  apply (pass_loads_only_pdfs Sample.env Sample.cold Sample.warm
           (Route.Ok Sample.indexed) ["a.pdf"; "notes.txt"; "b.pdf"]).
  - reflexivity.
  - reflexivity.
  - vm_compute. reflexivity.
Defined.



(** ** Requests served one after the other *)

Section InTurn.
Import Chunker VectorIndex Route EventLoop.

Variable env : Env.

Local Abbreviation resumed n t w :=
  (Nat.iter n (fun p : Task * World => step env (fst p) (snd p)) (t, w)).

Lemma run_app (s1 s2 : list nat) :
  forall tasks w,
    run env (s1 ++ s2) tasks w
      = run env s2 (fst (run env s1 tasks w)) (snd (run env s1 tasks w)).
Proof.
  induction s1 as [|i s1 IH]; intros tasks w; [reflexivity|].
  cbn [app run]. destruct (nth_error tasks i) as [t|]; [|apply IH].
  destruct (step env t w) as [t' w']. apply IH.
Qed.

Lemma set_nth_same {A} (l : list A) :
  forall i a, nth_error l i = Some a -> set_nth i a l = l.
Proof.
  induction l as [|x l IH]; intros [|i] a H; try discriminate.
  - now injection H as ->.
  - cbn [set_nth]. f_equal. now apply IH.
Qed.

Lemma set_nth_twice {A} (l : list A) :
  forall i a a', set_nth i a' (set_nth i a l) = set_nth i a' l.
Proof.
  induction l as [|x l IH]; intros [|i] a a'; try reflexivity.
  cbn [set_nth]. f_equal. apply IH.
Qed.

Lemma nth_error_set_nth {A} (l : list A) :
  forall i a x, nth_error l i = Some x ->
                nth_error (set_nth i a l) i = Some a.
Proof.
  induction l as [|y l IH]; intros [|i] a x H; try discriminate.
  - reflexivity.
  - cbn [set_nth nth_error] in *. eapply IH; eassumption.
Qed.

Lemma set_nth_middle {A} (l1 l2 : list A) (x y : A) :
  set_nth (List.length l1) x (l1 ++ y :: l2) = l1 ++ x :: l2.
Proof.
  induction l1 as [|a l1 IH]; [reflexivity|].
  cbn [List.length app set_nth]. now rewrite IH.
Qed.

Lemma nth_error_middle {A} (l1 l2 : list A) (y : A) :
  nth_error (l1 ++ y :: l2) (List.length l1) = Some y.
Proof. induction l1 as [|a l1 IH]; [reflexivity | exact IH]. Qed.

(** Resuming the same call [n] times in a row. *)
Lemma run_same (i n : nat) :
  forall tasks t w,
    nth_error tasks i = Some t ->
    run env (repeat i n) tasks w
      = (set_nth i (fst (resumed n t w)) tasks, snd (resumed n t w)).
Proof.
  induction n as [|n IH]; intros tasks t w Ht.
  - cbn [repeat run Nat.iter fst snd]. now rewrite set_nth_same.
  - cbn [repeat run]. rewrite Ht.
    destruct (step env t w) as [t1 w1] eqn:Hs.
    rewrite (IH _ t1 w1) by (eapply nth_error_set_nth; exact Ht).
    rewrite set_nth_twice, Nat.iter_succ_r. cbn [fst snd].
    now rewrite Hs.
Qed.

Lemma run_four (i : nat) (tasks : list Task) (w : World) :
  nth_error tasks i = Some Called ->
  run env [i; i; i; i] tasks w
    = (set_nth i (outcome (fst (initVectorStore env w))) tasks,
       snd (initVectorStore env w)).
Proof.
  intros Ht.
  pose proof (run_same 0 4 [Called] Called w eq_refl) as E.
  change (repeat 0 4) with [0; 0; 0; 0] in E.
  rewrite run_alone in E. cbn [set_nth] in E.
  assert (E1 := f_equal (fun p : list Task * World => hd Called (fst p)) E).
  assert (E2 := f_equal snd E).
  cbn [fst snd hd] in E1, E2.
  change [i; i; i; i] with (repeat i 4).
  rewrite (run_same i 4 tasks Called w Ht). now rewrite <- E1, <- E2.
Qed.

Lemma later_calls_return (store : MemoryVectorStore) (w : World) :
  vectorStore w = Some store ->
  forall m k,
    run env (flat_map (fun i => [i; i; i; i]) (seq k m))
        (repeat (Returned store) k ++ repeat Called m) w
      = (repeat (Returned store) (k + m), w).
Proof.
  intros Hs. induction m as [|m IH]; intros k.
  - cbn [seq flat_map run repeat]. now rewrite app_nil_r, Nat.add_0_r.
  - cbn [seq flat_map repeat].
    rewrite (run_app [k; k; k; k]).
    assert (Hk : List.length (repeat (Returned store) k) = k)
      by apply repeat_length.
    pose proof (nth_error_middle (repeat (Returned store) k)
                  (repeat Called m) Called) as Hnth.
    pose proof (set_nth_middle (repeat (Returned store) k)
                  (repeat Called m) (Returned store) Called) as Hset.
    rewrite Hk in Hnth, Hset.
    rewrite (run_four k _ w Hnth).
    rewrite (init_warm env w store Hs). cbn [fst snd outcome].
    rewrite Hset.
    replace (repeat (Returned store) k ++ Returned store :: repeat Called m)
      with (repeat (Returned store) (S k) ++ repeat Called m)
      by (cbn [repeat]; rewrite repeat_cons, <- app_assoc; reflexivity).
    rewrite IH. f_equal. f_equal. lia.
Qed.

Lemma no_pass_start_in_loads (paths : list string) :
  filter is_pass_start (map EvLoadPdf paths) = [].
Proof. induction paths as [|p paths IH]; [reflexivity | exact IH]. Qed.

Lemma no_pass_start_in_embeds (sent : list (list string)) :
  filter is_pass_start (map EvEmbed sent) = [].
Proof. induction sent as [|p sent IH]; [reflexivity | exact IH]. Qed.

End InTurn.

(** X6.  Requests that do not overlap index once: with the corpus
    readable and the service up, any number of requests on a cold
    state, each run to its end before the next starts, all return the
    same store, the directory is listed once, and the store holds every
    chunk of the corpus. *)
Theorem requests_in_turn_index_once (env : Route.Env) (w : Route.World)
        (splits : list Chunker.Chunk) (n : nat) :
  Route.vectorStore w = None ->
  Route.corpus env = Route.Ok splits ->
  Route.embedder_up env ->
  exists store w',
    EventLoop.run env (Runs.in_turn (S n)) (repeat EventLoop.Called (S n)) w
      = (repeat (EventLoop.Returned store) (S n), w') /\
    Route.vectorStore w' = Some store /\
    EventLoop.indexing_passes w' = S (EventLoop.indexing_passes w) /\
    map VectorIndex.entry_chunk (Route.memoryVectors store) = splits.
Proof.
  intros Hc Hcorp Hup.
  destruct (init_up env w splits Hc Hcorp Hup) as (store & w' & Hi).
  destruct (init_cold env w w' (Route.Ok store) Hc Hi)
    as (Hs & (splits' & Hc' & Hm) & _).
  exists store, w'. split; [|split; [exact Hs|split; [|congruence]]].
  - unfold Runs.in_turn. cbn [seq flat_map repeat].
    rewrite (run_app env [0; 0; 0; 0]).
    rewrite (run_four env 0 (EventLoop.Called :: repeat EventLoop.Called n) w
               eq_refl).
    rewrite Hi. cbn [fst snd EventLoop.outcome EventLoop.set_nth].
    exact (later_calls_return env store w' Hs n 1).
  - assert (Hdir : exists files,
               Route.readdirSync env (Route.cwd env ++ "/public/cv")
               = Route.Ok files).
    { unfold Route.corpus in Hcorp. cbv zeta in Hcorp.
      destruct (Route.readdirSync env (Route.cwd env ++ "/public/cv"))
        as [files|e]; [now exists files | discriminate]. }
    destruct Hdir as [files Hdir].
    destruct (init_cold_trace env w w' _ files Hc Hdir Hi)
      as (sent & Hl & _).
    unfold EventLoop.indexing_passes. rewrite Hl, filter_app.
    cbn [filter EventLoop.is_pass_start].
    rewrite filter_app, no_pass_start_in_loads, no_pass_start_in_embeds.
    rewrite length_app. cbn [List.length app]. lia.
Qed.

Lemma requests_in_turn_index_once_witness :
  exists store w',
    EventLoop.run Sample.env (Runs.in_turn 3)
                  (repeat EventLoop.Called 3) Sample.cold
      = (repeat (EventLoop.Returned store) 3, w') /\
    Route.vectorStore w' = Some store /\
    EventLoop.indexing_passes w' = S (EventLoop.indexing_passes Sample.cold) /\
    map VectorIndex.entry_chunk (Route.memoryVectors store)
      = [Sample.cats_chunk; Sample.dogs_chunk].
Proof.
  apply (requests_in_turn_index_once Sample.env Sample.cold
           [Sample.cats_chunk; Sample.dogs_chunk] 2).
  - reflexivity.
  - vm_compute. reflexivity.
  - exact sample_embedder_up.
Defined.

(** ** The route with its failures caught *)

Section HardenedFacts.
Import Chunker VectorIndex Route.

Variable path_join : string -> string -> string.
Variable env : Env.

Local Abbreviation cvPath := (cwd env ++ "/public/cv")%string.

Hypothesis join_directory : path_join (cwd env) "public/cv" = cvPath.
Hypothesis join_file :
  forall files file,
    readdirSync env cvPath = Ok files -> In file files ->
    path_join cvPath file = (cvPath ++ "/" ++ file)%string.

Lemma hardened_loaders (files : list string) :
  readdirSync env cvPath = Ok files ->
  map (fun file => path_join cvPath file) (filter (endsWith ".pdf") files)
    = map (fun file => (cvPath ++ "/" ++ file)%string)
          (filter (endsWith ".pdf") files).
Proof.
  intros Hdir. apply map_ext_in. intros file Hin.
  apply filter_In in Hin. exact (join_file files file Hdir (proj1 Hin)).
Qed.

Lemma hardened_init_refines (w : World) :
  Hardened.initVectorStore path_join env w =
    match initVectorStore env w with
    | (Ok store, w') => (inr store, w')
    | (Err _, w') =>
        (inl (Hardened.NewError "Vector store initialization failed"), w')
    end.
Proof.
  unfold Hardened.initVectorStore, initVectorStore.
  destruct (vectorStore w) as [store|] eqn:Hc; [reflexivity|].
  unfold Hardened.loadPdfDocuments, Hardened.createVectorStore,
    Hardened.PDF_DIRECTORY.
  rewrite join_directory.
  cbv beta iota zeta
      delta [Hardened.try_catch Hardened.bindH Hardened.plain
             Hardened.retH Hardened.throwH
             bind record lift load_all publish ret].
  cbn [vectorStore log].
  pose proof hardened_loaders as HL.
  destruct (readdirSync env cvPath) as [files|e]; [|reflexivity].
  rewrite <- (HL files eq_refl).
  destruct (filter (endsWith ".pdf") files) as [|p ps] eqn:Hf.
  - cbn [map collect List.concat]. rewrite app_nil_r.
    change (Hardened.splitDocuments []) with (splitDocuments []).
    match goal with
    | |- context [addDocuments env ?d ?s ?w1] =>
        destruct (addDocuments env d s w1) as [[store|e] w2]
    end; reflexivity.
  - match goal with
    | |- context [collect ?x] => destruct (collect x) as [docs|e]
    end; [|reflexivity].
    change (Hardened.splitDocuments (List.concat docs))
      with (splitDocuments (List.concat docs)).
    cbn [vectorStore log].
    match goal with
    | |- context [addDocuments env ?d ?s ?w1] =>
        destruct (addDocuments env d s w1) as [[store|e] w2]
    end; reflexivity.
Qed.

Lemma hardened_POST_refines (req : Request) (w : World) :
  Hardened.POST path_join env req w =
    match POST env req w with
    | (Ok response, w') => (inr response, w')
    | (Err _, w') => (inr (PlainResponse "Internal server error" 500), w')
    end.
Proof.
  unfold Hardened.POST, Hardened.try_catch. unfold Hardened.bindH at 1.
  rewrite hardened_init_refines.
  destruct (initVectorStore env w) as [[store|e] w1] eqn:Hi.
  - rewrite (POST_after_init env req w w1 store Hi). cbv zeta.
    cbv beta iota zeta
        delta [Hardened.bindH Hardened.plain Hardened.retH
               bind record lift ret].
    cbn [vectorStore log].
    destruct (json req) as [body|e]; [|reflexivity].
    destruct (body_query body) as [[|c q]|]; try reflexivity.
    match goal with
    | |- context [similaritySearch env store ?q ?k ?w2] =>
        destruct (similaritySearch env store q k w2) as [[rs|e] w3]
    end; [|reflexivity].
    rewrite start_fresh. reflexivity.
  - rewrite (POST_init_failed env req w w1 e Hi). reflexivity.
Qed.

End HardenedFacts.

(** X11.  The route with its failures caught never throws.  Where
    [path.join] has nothing to normalize it answers exactly as the plain
    route wherever that one answers, and with 'Internal server error',
    status 500, wherever that one throws, whatever was thrown; the
    trace and the singleton are the same in both cases. *)
Theorem hardened_route_answers (path_join : string -> string -> string)
        (env : Route.Env) (req : Route.Request) (w : Route.World) :
  path_join (Route.cwd env) "public/cv"
    = (Route.cwd env ++ "/public/cv")%string ->
  (forall files file,
      Route.readdirSync env (Route.cwd env ++ "/public/cv")
        = Route.Ok files ->
      In file files ->
      path_join (Route.cwd env ++ "/public/cv")%string file
        = ((Route.cwd env ++ "/public/cv") ++ "/" ++ file)%string) ->
  exists response,
    Hardened.POST path_join env req w
      = (inr response, snd (Route.POST env req w)) /\
    match fst (Route.POST env req w) with
    | Route.Ok answered => response = answered
    | Route.Err _ =>
        response = Route.PlainResponse "Internal server error" 500
    end.
Proof.
  intros Hd Hf.
  rewrite (hardened_POST_refines path_join env Hd Hf req w).
  destruct (Route.POST env req w) as [[response|e] w']; cbn [fst snd];
    eexists; split; reflexivity.
Qed.

Lemma hardened_route_answers_witness :
  exists response,
    Hardened.POST Hardened.join_plain Sample.env_down
                  (Sample.request (Some "dogs")) Sample.cold
      = (inr response,
         snd (Route.POST Sample.env_down (Sample.request (Some "dogs"))
                         Sample.cold)) /\
    match fst (Route.POST Sample.env_down (Sample.request (Some "dogs"))
                          Sample.cold) with
    | Route.Ok answered => response = answered
    | Route.Err _ =>
        response = Route.PlainResponse "Internal server error" 500
    end.
Proof.
  apply (hardened_route_answers Hardened.join_plain Sample.env_down).
  - reflexivity.
  - intros files file _ _. reflexivity.
Defined.

(** X12.  The pass of the route with its failures caught: when it fails,
    whatever the cause, what is thrown is the one message
    'Vector store initialization failed' and the singleton stays empty;
    when it succeeds it returns and publishes the store the plain route
    builds. *)
Theorem hardened_init_wraps (path_join : string -> string -> string)
        (env : Route.Env) (w : Route.World) :
  path_join (Route.cwd env) "public/cv"
    = (Route.cwd env ++ "/public/cv")%string ->
  (forall files file,
      Route.readdirSync env (Route.cwd env ++ "/public/cv")
        = Route.Ok files ->
      In file files ->
      path_join (Route.cwd env ++ "/public/cv")%string file
        = ((Route.cwd env ++ "/public/cv") ++ "/" ++ file)%string) ->
  Route.vectorStore w = None ->
  match Hardened.initVectorStore path_join env w with
  | (inl thrown, w') =>
      thrown = Hardened.NewError "Vector store initialization failed" /\
      Route.vectorStore w' = None /\
      exists e, Route.initVectorStore env w = (Route.Err e, w')
  | (inr store, w') =>
      Route.vectorStore w' = Some store /\
      Route.initVectorStore env w = (Route.Ok store, w')
  end.
Proof.
  intros Hd Hf Hc.
  rewrite (hardened_init_refines path_join env Hd Hf w).
  destruct (Route.initVectorStore env w) as [[store|e] w'] eqn:Hi.
  - split; [|reflexivity]. exact (init_store env w w' store Hi).
  - split; [reflexivity|]. split; [|now exists e].
    exact (init_cold env w w' (Route.Err e) Hc Hi).
Qed.

Lemma hardened_init_wraps_witness :
  match Hardened.initVectorStore Hardened.join_plain Runs.env_bad_pdf
                                 Sample.cold with
  | (inl thrown, w') =>
      thrown = Hardened.NewError "Vector store initialization failed" /\
      Route.vectorStore w' = None /\
      exists e,
        Route.initVectorStore Runs.env_bad_pdf Sample.cold
          = (Route.Err e, w')
  | (inr store, w') =>
      Route.vectorStore w' = Some store /\
      Route.initVectorStore Runs.env_bad_pdf Sample.cold
        = (Route.Ok store, w')
  end.
Proof.
  apply (hardened_init_wraps Hardened.join_plain Runs.env_bad_pdf
           Sample.cold).
  - reflexivity.
  - intros files file _ _. reflexivity.
  - reflexivity.
Defined.

(** ** Interleavings, counted *)

Lemma published_index_complete_witness :
  EventLoop.complete Sample.env Sample.indexed.
Proof.
  apply (published_index_complete Sample.env [0; 1; 0; 0; 0; 1; 1; 1] 2
           Sample.cold
           (snd (EventLoop.run Sample.env [0; 1; 0; 0; 0; 1; 1; 1]
                   (repeat EventLoop.Called 2) Sample.cold))
           (fst (EventLoop.run Sample.env [0; 1; 0; 0; 0; 1; 1; 1]
                   (repeat EventLoop.Called 2) Sample.cold))).
  - reflexivity.
  - apply surjective_pairing.
  - vm_compute. reflexivity.
Defined.

Lemma overlapping_calls_both_start_witness :
  exists loaders w',
    EventLoop.run Sample.env [0; 1]
                  [EventLoop.Called; EventLoop.Called] Sample.cold
      = ([EventLoop.AwaitLoad loaders; EventLoop.AwaitLoad loaders], w') /\
    Route.vectorStore w' = None /\
    EventLoop.indexing_passes w' = EventLoop.indexing_passes Sample.cold + 2.
Proof.
  apply (overlapping_calls_both_start Sample.env Sample.cold
           ["a.pdf"; "notes.txt"; "b.pdf"]); reflexivity.
Defined.

Section Counting.
Import Chunker VectorIndex Route EventLoop.

Variable env : Env.

Local Abbreviation called t := (if Runs.is_called t then 1 else 0).

(** A resumed call lists the directory only when it was not started
    yet, and is started afterwards. *)
Lemma step_passes (t t' : Task) (w w' : World) :
  step env t w = (t', w') ->
  indexing_passes w' + called t' <= indexing_passes w + called t /\
  indexing_passes w <= indexing_passes w'.
Proof.
  intros H. destruct t as [|loaders|allDocs|store splits|store|e];
    cbn [step] in H.
  - destruct (vectorStore w) as [store|].
    + injection H as <- <-. cbn [Runs.is_called]. lia.
    + cbv beta iota zeta delta [bind record lift ret settle] in H.
      cbn [vectorStore log] in H.
      destruct (readdirSync env (cwd env ++ "/public/cv")) as [files|e];
        injection H as <- <-; unfold indexing_passes; cbn [log Runs.is_called];
        rewrite !filter_app, ?no_pass_start_in_loads, !length_app;
        cbn [filter is_pass_start List.length]; lia.
  - cbv beta iota zeta delta [bind lift ret settle] in H.
    match type of H with
    | context [collect ?x] => destruct (collect x) as [docs|e]
    end; injection H as <- <-; cbn [Runs.is_called]; lia.
  - injection H as <- <-. cbn [Runs.is_called]. lia.
  - cbv beta iota zeta delta [bind publish ret settle] in H.
    unfold addDocuments, embed, bind at 1 in H.
    match type of H with
    | context [embed_batches env ?bs ?w1] =>
        destruct (embed_batches env bs w1) as [[vs|e] w2] eqn:E;
          apply embed_batches_trace in E; destruct E as [_ [sent Hl]]
    end; unfold ret in H; injection H as <- <-;
      unfold indexing_passes; cbn [log Runs.is_called];
      rewrite Hl, filter_app, no_pass_start_in_embeds, app_nil_r; lia.
  - injection H as <- <-. lia.
  - injection H as <- <-. lia.
Qed.

Lemma waiting_set_nth (tasks : list Task) :
  forall i t t',
    nth_error tasks i = Some t ->
    Runs.waiting (set_nth i t' tasks) + called t
      = Runs.waiting tasks + called t'.
Proof.
  unfold Runs.waiting.
  induction tasks as [|x tasks IH]; intros [|i] t t' H; try discriminate.
  - injection H as ->. cbn [set_nth filter].
    destruct (Runs.is_called t), (Runs.is_called t'); cbn [List.length]; lia.
  - cbn [set_nth filter nth_error] in *.
    specialize (IH i t t' H).
    destruct (Runs.is_called x); cbn [List.length]; lia.
Qed.

Lemma run_passes (schedule : list nat) :
  forall tasks w tasks' w',
    run env schedule tasks w = (tasks', w') ->
    indexing_passes w' + Runs.waiting tasks'
      <= indexing_passes w + Runs.waiting tasks /\
    indexing_passes w <= indexing_passes w'.
Proof.
  induction schedule as [|i schedule IH]; intros tasks w tasks' w' H.
  - injection H as <- <-. lia.
  - cbn [run] in H. destruct (nth_error tasks i) as [t|] eqn:Hn.
    + destruct (step env t w) as [t1 w1] eqn:Hs.
      destruct (step_passes t t1 w w1 Hs) as [Hp1 Hp2].
      pose proof (waiting_set_nth tasks i t t1 Hn) as Hw.
      destruct (IH _ _ _ _ H) as [Hq1 Hq2]. lia.
    + eapply IH; eassumption.
Qed.

Lemma waiting_repeat (n : nat) : Runs.waiting (repeat Called n) = n.
Proof.
  unfold Runs.waiting. induction n as [|n IH]; [reflexivity|].
  cbn [repeat filter Runs.is_called List.length]. now f_equal.
Qed.

End Counting.

(** X13.  However the requests interleave, the directory is listed at
    most once per request: the number of passes run on behalf of [n]
    requests is never more than [n], and never more than the number of
    requests that have started. *)
Theorem passes_at_most_requests (env : Route.Env) (schedule : list nat)
        (n : nat) (w w' : Route.World) (tasks' : list EventLoop.Task) :
  EventLoop.run env schedule (repeat EventLoop.Called n) w = (tasks', w') ->
  EventLoop.indexing_passes w <= EventLoop.indexing_passes w' /\
  EventLoop.indexing_passes w' + Runs.waiting tasks'
    <= EventLoop.indexing_passes w + n.
Proof.
  intros H. destruct (run_passes env schedule _ _ _ _ H) as [H1 H2].
  split; [exact H2|].
  pose proof (waiting_repeat n) as Hn. lia.
Qed.

Lemma passes_at_most_requests_witness :
  EventLoop.indexing_passes Sample.cold
    <= EventLoop.indexing_passes
         (snd (EventLoop.run Sample.env [0; 1; 0; 0; 0; 1; 1; 1]
                 (repeat EventLoop.Called 3) Sample.cold)) /\
  EventLoop.indexing_passes
    (snd (EventLoop.run Sample.env [0; 1; 0; 0; 0; 1; 1; 1]
            (repeat EventLoop.Called 3) Sample.cold))
  + Runs.waiting
      (fst (EventLoop.run Sample.env [0; 1; 0; 0; 0; 1; 1; 1]
              (repeat EventLoop.Called 3) Sample.cold))
    <= EventLoop.indexing_passes Sample.cold + 3.
Proof.
  apply (passes_at_most_requests Sample.env [0; 1; 0; 0; 0; 1; 1; 1] 3
           Sample.cold).
  apply surjective_pairing.
Defined.
